(** * HiddenOutcomeGame: the player ledger and its three game rules

    A shallow embedding of [contracts/HiddenOutcomeGame.sol] and the
    properties its specification states about it.

    - Solidity's unsigned integers are [Z] with their range written out:
      the plain counters ([uint64]) use the checked arithmetic of
      Solidity 0.8 (an overflow reverts with [Panic(0x11)]), the encrypted
      integers wrap around modulo their width, as the provider's
      homomorphic operations do.
    - [mapping(address => Player)] is a [gmap] read with a default record.
    - A transaction either returns the next state or reverts; a reverted
      call leaves the ledger as it was. *)

From Stdlib Require Import ZArith List Bool Lia.
From stdpp Require Import base gmap strings.
From stdpp Require Import pretty.

Open Scope Z_scope.

(** ** Solidity values *)

Definition address := Z.

Definition max_uint (w : Z) : Z := 2 ^ w - 1.

(** [uint32(x)]: an explicit conversion truncates. *)
Definition uint32 (x : Z) : Z := x mod 2 ^ 32.

(** ** Transactions that may revert *)

Inductive failure :=
| Error (reason : string)      (* require(cond, reason) *)
| Panic (code : Z).            (* compiler-inserted check; 0x11 is arithmetic overflow *)

Inductive result (A : Type) :=
| Ok (a : A)
| Revert (f : failure).
Arguments Ok {A} a.
Arguments Revert {A} f.

#[global] Instance result_ret : MRet result := fun _ a => Ok a.
#[global] Instance result_bind : MBind result := fun _ _ k m =>
  match m with
  | Ok a => k a
  | Revert f => Revert f
  end.

Definition require (cond : bool) (reason : string) : result unit :=
  if cond then Ok tt else Revert (Error reason).

(** [a + b] on [uint<w>] under Solidity ^0.8: checked. *)
Definition checked_add (w a b : Z) : result Z :=
  if a + b <=? max_uint w then Ok (a + b) else Revert (Panic 17).

(** ** The encrypted arithmetic provider *)

(** Modelled from the spec: the external FHE library ([@fhevm/solidity]'s
    [FHE]) is not part of the repository.  The contract calls its operations
    by name and treats every result as a further opaque ciphertext handle.
    A handle is represented by the expression that produced it, so two
    results are the same handle exactly when they come from the same
    operation on the same operands; [decrypt32], [decrypt8] and
    [decryptBool] give the value a handle decodes to, with the wrap-around
    of the 32-bit and 8-bit domains.  The permission list records every
    grant in the order the contract makes it. *)
Module FHE.

Inductive euint32 :=
| uninit32                                   (* euint32.wrap(0), never assigned *)
| asEuint32 (v : Z)
| add32 (a b : euint32)
| sub32 (a b : euint32)
| select32 (c : ebool) (a b : euint32)
with euint8 :=
| uninit8
| asEuint8 (v : Z)
| add8 (a b : euint8)
| sub8 (a b : euint8)
| select8 (c : ebool) (a b : euint8)
with ebool :=
| lt8 (a b : euint8)
| le8 (a b : euint8)
| gt8 (a b : euint8)
| ge32 (a b : euint32)
| and (a b : ebool).

Fixpoint decrypt32 (e : euint32) : Z :=
  match e with
  | uninit32 => 0
  | asEuint32 v => v mod 2 ^ 32
  | add32 a b => (decrypt32 a + decrypt32 b) mod 2 ^ 32
  | sub32 a b => (decrypt32 a - decrypt32 b) mod 2 ^ 32
  | select32 c a b => if decryptBool c then decrypt32 a else decrypt32 b
  end
with decrypt8 (e : euint8) : Z :=
  match e with
  | uninit8 => 0
  | asEuint8 v => v mod 2 ^ 8
  | add8 a b => (decrypt8 a + decrypt8 b) mod 2 ^ 8
  | sub8 a b => (decrypt8 a - decrypt8 b) mod 2 ^ 8
  | select8 c a b => if decryptBool c then decrypt8 a else decrypt8 b
  end
with decryptBool (e : ebool) : bool :=
  match e with
  | lt8 a b => decrypt8 a <? decrypt8 b
  | le8 a b => decrypt8 a <=? decrypt8 b
  | gt8 a b => decrypt8 b <? decrypt8 a
  | ge32 a b => decrypt32 b <=? decrypt32 a
  | and a b => decryptBool a && decryptBool b
  end.

(** A ciphertext of either width, as the permission list keys it. *)
Inductive handle :=
| H32 (e : euint32)
| H8 (e : euint8).

Definition ACL := list (handle * address).

(** [FHE.allow(value, account)] *)
Definition allow (value : handle) (account : address) (acl : ACL) : ACL :=
  (value, account) :: acl.

End FHE.

Coercion FHE.H32 : FHE.euint32 >-> FHE.handle.
Coercion FHE.H8 : FHE.euint8 >-> FHE.handle.

(** ** The contract *)

Definition STARTING_COINS : Z := 1000.
Definition MIN_REWARD : Z := 10.
Definition REWARD_SPREAD : Z := 91.
Definition HEAL_COST : Z := 10.
Definition MAX_HEALTH : Z := 10.
Definition DAMAGE : Z := 1.

Record Player := mkPlayer {
  balance : FHE.euint32;
  health : FHE.euint8;
  joined : bool;
  battles : Z;
  victories : Z;
  heals : Z
}.

(** A storage slot nobody wrote to reads as all zeroes. *)
Definition zeroPlayer : Player :=
  mkPlayer FHE.uninit32 FHE.uninit8 false 0 0 0.

Definition set_balance (p : Player) (v : FHE.euint32) : Player :=
  mkPlayer v (health p) (joined p) (battles p) (victories p) (heals p).
Definition set_health (p : Player) (v : FHE.euint8) : Player :=
  mkPlayer (balance p) v (joined p) (battles p) (victories p) (heals p).
Definition set_joined (p : Player) (v : bool) : Player :=
  mkPlayer (balance p) (health p) v (battles p) (victories p) (heals p).
Definition set_battles (p : Player) (v : Z) : Player :=
  mkPlayer (balance p) (health p) (joined p) v (victories p) (heals p).
Definition set_victories (p : Player) (v : Z) : Player :=
  mkPlayer (balance p) (health p) (joined p) (battles p) v (heals p).
Definition set_heals (p : Player) (v : Z) : Player :=
  mkPlayer (balance p) (health p) (joined p) (battles p) (victories p) v.

Inductive Event :=
| PlayerJoined (player : address)
| MonsterFought (player : address) (victory : bool) (reward : Z)
| HealUsed (player : address) (totalHeals : Z).

(** The ledger as the contract sees it: its own storage, the provider's
    permission list, and the log of emitted events (newest first). *)
Record State := mkState {
  players : gmap Z Player;
  acl : FHE.ACL;
  events : list Event
}.

Definition genesis : State := mkState ∅ [] [].

(** The context of one call.  [block_digest c a n] stands for
    [keccak256(abi.encodePacked(blockhash(block.number - 1), block.prevrandao,
    block.timestamp, a, n))] in the block the call is mined in. *)
Record Ctx := mkCtx {
  msg_sender : address;
  this : address;
  block_digest : address -> Z -> Z
}.

(** [players[a]] *)
Definition getPlayer (s : State) (a : address) : Player :=
  default zeroPlayer (players s !! a).

Definition setPlayer (s : State) (a : address) (p : Player) : State :=
  mkState (<[a := p]> (players s)) (acl s) (events s).

Definition emit (e : Event) (s : State) : State :=
  mkState (players s) (acl s) (e :: events s).

Definition _reduceHealth (health damage : FHE.euint8) : FHE.euint8 :=
  let below := FHE.le8 health damage in
  FHE.select8 below (FHE.asEuint8 0) (FHE.sub8 health damage).

Definition _clampHealth (health : FHE.euint8) : FHE.euint8 :=
  let over := FHE.gt8 health (FHE.asEuint8 MAX_HEALTH) in
  FHE.select8 over (FHE.asEuint8 MAX_HEALTH) health.

(** [FHE.allowThis(x)] is [FHE.allow(x, address(this))]. *)
Definition _allowPlayer (c : Ctx) (player : Player) (s : State) : State :=
  let a := acl s in
  let a := FHE.allow (balance player) (this c) a in
  let a := FHE.allow (balance player) (msg_sender c) a in
  let a := FHE.allow (health player) (this c) a in
  let a := FHE.allow (health player) (msg_sender c) a in
  mkState (players s) a (events s).

Definition _random (c : Ctx) (playerAddress : address) (battles : Z) : Z :=
  block_digest c playerAddress battles mod 2 ^ 256.

Definition joinGame (c : Ctx) (s : State) : result State :=
  let player := getPlayer s (msg_sender c) in
  require (negb (joined player)) "Already joined" ;;
  let player := set_joined player true in
  let player := set_balance player (FHE.asEuint32 STARTING_COINS) in
  let player := set_health player (FHE.asEuint8 MAX_HEALTH) in
  let player := set_battles player 0 in
  let player := set_victories player 0 in
  let player := set_heals player 0 in
  let s := setPlayer s (msg_sender c) player in
  let s := _allowPlayer c player s in
  Ok (emit (PlayerJoined (msg_sender c)) s).

Definition fightMonster (c : Ctx) (s : State) : result State :=
  let player := getPlayer s (msg_sender c) in
  require (joined player) "Join first" ;;
  let rand := _random c (msg_sender c) (battles player) in
  let victory := rand mod 2 =? 0 in
  reward ← (if victory
            then checked_add 32 (uint32 (rand mod REWARD_SPREAD)) MIN_REWARD
            else Ok 0);
  player ← (if victory
            then
              let player :=
                set_balance player
                  (FHE.add32 (balance player) (FHE.asEuint32 reward)) in
              v ← checked_add 64 (victories player) 1;
              Ok (set_victories player v)
            else
              let damage := FHE.asEuint8 DAMAGE in
              Ok (set_health player (_reduceHealth (health player) damage)));
  b ← checked_add 64 (battles player) 1;
  let player := set_battles player b in
  let s := setPlayer s (msg_sender c) player in
  let s := _allowPlayer c player s in
  Ok (emit (MonsterFought (msg_sender c) victory reward) s).

Definition heal (c : Ctx) (s : State) : result State :=
  let player := getPlayer s (msg_sender c) in
  require (joined player) "Join first" ;;
  let hasHealthRoom := FHE.lt8 (health player) (FHE.asEuint8 MAX_HEALTH) in
  let hasCoins := FHE.ge32 (balance player) (FHE.asEuint32 HEAL_COST) in
  let canHeal := FHE.and hasHealthRoom hasCoins in
  let healedHealth :=
    _clampHealth (FHE.add8 (health player) (FHE.asEuint8 1)) in
  let player :=
    set_health player (FHE.select8 canHeal healedHealth (health player)) in
  let player :=
    set_balance player
      (FHE.select32 canHeal
         (FHE.sub32 (balance player) (FHE.asEuint32 HEAL_COST))
         (balance player)) in
  h ← checked_add 64 (heals player) 1;
  let player := set_heals player h in
  let s := setPlayer s (msg_sender c) player in
  let s := _allowPlayer c player s in
  Ok (emit (HealUsed (msg_sender c) (heals player)) s).

Definition getEncryptedBalance (s : State) (playerAddress : address)
  : result FHE.euint32 :=
  require (joined (getPlayer s playerAddress)) "Player not found" ;;
  Ok (balance (getPlayer s playerAddress)).

Definition getEncryptedHealth (s : State) (playerAddress : address)
  : result FHE.euint8 :=
  require (joined (getPlayer s playerAddress)) "Player not found" ;;
  Ok (health (getPlayer s playerAddress)).

Definition getPlayerStats (s : State) (playerAddress : address)
  : result (Z * Z * Z) :=
  let player := getPlayer s playerAddress in
  require (joined player) "Player not found" ;;
  Ok (battles player, victories player, heals player).

Definition hasJoined (s : State) (playerAddress : address) : bool :=
  joined (getPlayer s playerAddress).

(** ** Histories *)

Inductive Call := JoinGame | FightMonster | Heal.

Definition run (k : Call) (c : Ctx) (s : State) : result State :=
  match k with
  | JoinGame => joinGame c s
  | FightMonster => fightMonster c s
  | Heal => heal c s
  end.

(** The ledger after a transaction: a reverted call changes nothing. *)
Definition exec (k : Call) (c : Ctx) (s : State) : State :=
  match run k c s with
  | Ok s' => s'
  | Revert _ => s
  end.

Inductive reachable : State -> Prop :=
| reach_genesis : reachable genesis
| reach_step k c s : reachable s -> reachable (exec k c s).

(** Decoded views of a player's record. *)
Definition coins (s : State) (a : address) : Z :=
  FHE.decrypt32 (balance (getPlayer s a)).
Definition hp (s : State) (a : address) : Z :=
  FHE.decrypt8 (health (getPlayer s a)).

(** A history is a list of calls, oldest first. *)
Fixpoint replay (h : list (Call * Ctx)) (s : State) : State :=
  match h with
  | [] => s
  | (k, c) :: h' => replay h' (exec k c s)
  end.

(** The scalar drawn by the caller's next fight, and what it decides. *)
Definition scalar (c : Ctx) (s : State) : Z :=
  _random c (msg_sender c) (battles (getPlayer s (msg_sender c))).
Definition victorious (c : Ctx) (s : State) : bool :=
  scalar c s mod 2 =? 0.

(** The predicate [canHeal] of [heal] on decoded values: room to heal and
    enough coins. *)
Definition canHeal_clear (b h : Z) : bool := (h <? 10) && (10 <=? b).

(** The tail the three mutating operations share: the record is written
    back, the permissions are granted on its ciphertexts, the event is
    logged. *)
Definition settle (c : Ctx) (p : Player) (e : Event) (s : State) : State :=
  emit e (_allowPlayer c p (setPlayer s (msg_sender c) p)).

(** The records a successful call leaves behind. *)
Definition joinedPlayer : Player :=
  mkPlayer (FHE.asEuint32 STARTING_COINS) (FHE.asEuint8 MAX_HEALTH)
    true 0 0 0.

Definition wonPlayer (p : Player) (reward : Z) : Player :=
  mkPlayer (FHE.add32 (balance p) (FHE.asEuint32 reward)) (health p)
    (joined p) (battles p + 1) (victories p + 1) (heals p).

Definition lostPlayer (p : Player) : Player :=
  mkPlayer (balance p) (_reduceHealth (health p) (FHE.asEuint8 DAMAGE))
    (joined p) (battles p + 1) (victories p) (heals p).

Definition healedPlayer (p : Player) : Player :=
  let canHeal :=
    FHE.and (FHE.lt8 (health p) (FHE.asEuint8 MAX_HEALTH))
      (FHE.ge32 (balance p) (FHE.asEuint32 HEAL_COST)) in
  mkPlayer
    (FHE.select32 canHeal
       (FHE.sub32 (balance p) (FHE.asEuint32 HEAL_COST)) (balance p))
    (FHE.select8 canHeal
       (_clampHealth (FHE.add8 (health p) (FHE.asEuint8 1))) (health p))
    (joined p) (battles p) (victories p) (heals p + 1).

(** What one transaction does to the ledger, case by case. *)
Inductive effect (c : Ctx) (s : State) : Call -> State -> Prop :=
| eff_revert k f :
    run k c s = Revert f ->
    effect c s k s
| eff_join :
    joined (getPlayer s (msg_sender c)) = false ->
    effect c s JoinGame
      (settle c joinedPlayer (PlayerJoined (msg_sender c)) s)
| eff_won reward :
    joined (getPlayer s (msg_sender c)) = true ->
    victorious c s = true ->
    reward = scalar c s mod REWARD_SPREAD + MIN_REWARD ->
    victories (getPlayer s (msg_sender c)) + 1 <= max_uint 64 ->
    battles (getPlayer s (msg_sender c)) + 1 <= max_uint 64 ->
    effect c s FightMonster
      (settle c (wonPlayer (getPlayer s (msg_sender c)) reward)
         (MonsterFought (msg_sender c) true reward) s)
| eff_lost :
    joined (getPlayer s (msg_sender c)) = true ->
    victorious c s = false ->
    battles (getPlayer s (msg_sender c)) + 1 <= max_uint 64 ->
    effect c s FightMonster
      (settle c (lostPlayer (getPlayer s (msg_sender c)))
         (MonsterFought (msg_sender c) false 0) s)
| eff_heal :
    joined (getPlayer s (msg_sender c)) = true ->
    heals (getPlayer s (msg_sender c)) + 1 <= max_uint 64 ->
    effect c s Heal
      (settle c (healedPlayer (getPlayer s (msg_sender c)))
         (HealUsed (msg_sender c) (heals (getPlayer s (msg_sender c)) + 1)) s).

(** Fixed data for the worked examples: a player, the deployed contract,
    and a call by that player in a block whose digest is [d]. *)
Definition alice : address := 0xA11CE.
Definition game : address := 0xC0DE.
Definition call (d : Z) : Ctx := mkCtx alice game (fun _ _ => d).

(** Alice has joined; Alice has joined and lost one fight. *)
Definition fresh : State := exec JoinGame (call 0) genesis.
Definition hurt : State := exec FightMonster (call 1) fresh.

(** ** Arithmetic of the encrypted domains *)

(** Alice's record as it stands at the end of three long histories, written
    out: 42,949,662 victories of 100 coins; 2^64 - 1 heals at full health;
    2^64 - 1 defeats. *)
Definition wealthy : Player :=
  mkPlayer (FHE.asEuint32 4294967200) (FHE.asEuint8 10) true
    42949662 42949662 0.
Definition tireless : Player :=
  mkPlayer (FHE.asEuint32 1000) (FHE.asEuint8 10) true 0 0 (max_uint 64).
Definition veteran : Player :=
  mkPlayer (FHE.asEuint32 1000) (FHE.asEuint8 0) true (max_uint 64) 0 0.
Definition ledger_of (p : Player) : State := mkState {[ alice := p ]} [] [].

(** ** Reading the ledger from outside *)

(** A second player for the worked examples. *)
Definition bob : address := 0xB0B.

(** How many entries of the event log satisfy [f]. *)
Fixpoint tally (f : Event -> bool) (log : list Event) : Z :=
  match log with
  | [] => 0
  | e :: log' => (if f e then 1 else 0) + tally f log'
  end.

Definition is_join (a : address) (e : Event) : bool :=
  match e with
  | PlayerJoined p => bool_decide (p = a)
  | _ => false
  end.

Definition is_fight (a : address) (e : Event) : bool :=
  match e with
  | MonsterFought p _ _ => bool_decide (p = a)
  | _ => false
  end.

Definition is_victory (a : address) (e : Event) : bool :=
  match e with
  | MonsterFought p victory _ => bool_decide (p = a) && victory
  | _ => false
  end.

Definition is_heal (a : address) (e : Event) : bool :=
  match e with
  | HealUsed p _ => bool_decide (p = a)
  | _ => false
  end.

(** What an event of the log may carry. *)
Definition sound_event (e : Event) : Prop :=
  match e with
  | PlayerJoined _ => True
  | MonsterFought _ victory reward =>
      if victory then 10 <= reward <= 100 else reward = 0
  | HealUsed _ totalHeals => 1 <= totalHeals <= max_uint 64
  end.

(** Identity [a] and the contract at [g] both hold permission on the two
    ciphertexts of [a]'s record. *)
Definition permitted (g : address) (s : State) (a : address) : Prop :=
  let p := getPlayer s a in
  In (FHE.H32 (balance p), a) (acl s) /\
  In (FHE.H32 (balance p), g) (acl s) /\
  In (FHE.H8 (health p), a) (acl s) /\
  In (FHE.H8 (health p), g) (acl s).

(** Every call of the history is served by the contract deployed at [g]. *)
Definition served_by (g : address) (h : list (Call * Ctx)) : Prop :=
  Forall (fun kc => this (snd kc) = g) h.

(** The most victories after which the balance cannot have wrapped. *)
Definition WRAP_FREE_VICTORIES : Z := 42949662.

(** ** The front end's reading of a receipt *)

(** The body of the loop of [parseReceipt] in
    [home/src/components/GameApp.tsx]: the message after one more log.  A
    log the contract's interface does not parse ([parseLog] throws or
    yields null, as for the logs of other contracts) is [None]. *)
Definition logMessage (message : string) (log : option Event) : string :=
  match log with
  | Some (MonsterFought _ victory reward) =>
      if victory
      then "Victory! Looted " +:+ pretty reward +:+ " coins."
      else "Defeat. You took 1 damage."
  | Some (HealUsed _ totalHeals) =>
      "Heal attempt recorded (" +:+ pretty totalHeals +:+ ")"
  | _ => message
  end.

(** The loop, over the logs of a receipt in the order they were emitted. *)
Definition receiptMessage (logs : list (option Event)) : string :=
  foldl logMessage "" logs.

(** [parseReceipt]: the status note is replaced only by a message that is
    not empty. *)
Definition parseReceipt (statusNote : string) (logs : list (option Event))
  : string :=
  let message := receiptMessage logs in
  if bool_decide (message = "") then statusNote else message.

(** Alice after ten defeats: no health left. *)
Definition veteran_at_zero : Player :=
  mkPlayer (FHE.asEuint32 1000) (FHE.asEuint8 0) true 10 0 0.

Ltac unfold_consts :=
  unfold STARTING_COINS, MIN_REWARD, REWARD_SPREAD, HEAL_COST, MAX_HEALTH,
    DAMAGE, max_uint, uint32 in *.

Ltac zmod :=
  unfold_consts;
  change (2 ^ 8) with 256 in *;
  change (2 ^ 32) with 4294967296 in *;
  change (2 ^ 64) with 18446744073709551616 in *;
  Z.div_mod_to_equations; lia.

Ltac simp_record :=
  cbn [mbind result_bind require negb andb
       set_balance set_health set_joined set_battles set_victories set_heals
       balance health joined battles victories heals].

Lemma decrypt32_range (e : FHE.euint32) : 0 <= FHE.decrypt32 e < 2 ^ 32.
Proof.
  induction e as [ | v | a _ b _ | a _ b _ | c a IHa b IHb ];
    cbn [FHE.decrypt32].
  - lia.
  - apply Z.mod_pos_bound; lia.
  - apply Z.mod_pos_bound; lia.
  - apply Z.mod_pos_bound; lia.
  - destruct (FHE.decryptBool c); assumption.
Qed.

Lemma decrypt8_range (e : FHE.euint8) : 0 <= FHE.decrypt8 e < 2 ^ 8.
Proof.
  induction e as [ | v | a _ b _ | a _ b _ | c a IHa b IHb ];
    cbn [FHE.decrypt8].
  - lia.
  - apply Z.mod_pos_bound; lia.
  - apply Z.mod_pos_bound; lia.
  - apply Z.mod_pos_bound; lia.
  - destruct (FHE.decryptBool c); assumption.
Qed.

(** The clamped subtraction of a defeat. *)
Lemma reduceHealth_decrypt (h : FHE.euint8) :
  FHE.decrypt8 (_reduceHealth h (FHE.asEuint8 DAMAGE))
  = Z.max 0 (FHE.decrypt8 h - 1).
Proof.
  pose proof (decrypt8_range h) as Hr.
  unfold _reduceHealth.
  cbn [FHE.decrypt8 FHE.decryptBool].
  change (DAMAGE mod 2 ^ 8) with 1. change (0 mod 2 ^ 8) with 0.
  destruct (Z.leb_spec (FHE.decrypt8 h) 1); zmod.
Qed.

(** The clamp never moves a value that is already at most [MAX_HEALTH]. *)
Lemma clampHealth_decrypt (h : FHE.euint8) :
  FHE.decrypt8 (_clampHealth h) = Z.min (FHE.decrypt8 h) MAX_HEALTH.
Proof.
  unfold _clampHealth.
  cbn [FHE.decrypt8 FHE.decryptBool].
  change (MAX_HEALTH mod 2 ^ 8) with 10.
  destruct (Z.ltb_spec 10 (FHE.decrypt8 h)); unfold_consts; lia.
Qed.

Lemma canHeal_decrypt (b : FHE.euint32) (h : FHE.euint8) :
  FHE.decryptBool
    (FHE.and (FHE.lt8 h (FHE.asEuint8 MAX_HEALTH))
       (FHE.ge32 b (FHE.asEuint32 HEAL_COST)))
  = canHeal_clear (FHE.decrypt32 b) (FHE.decrypt8 h).
Proof. reflexivity. Qed.

Lemma heal_health_decrypt (b : FHE.euint32) (h : FHE.euint8) :
  let canHeal :=
    FHE.and (FHE.lt8 h (FHE.asEuint8 MAX_HEALTH))
      (FHE.ge32 b (FHE.asEuint32 HEAL_COST)) in
  FHE.decrypt8
    (FHE.select8 canHeal (_clampHealth (FHE.add8 h (FHE.asEuint8 1))) h)
  = if canHeal_clear (FHE.decrypt32 b) (FHE.decrypt8 h)
    then Z.min (FHE.decrypt8 h + 1) 10
    else FHE.decrypt8 h.
Proof.
  intros canHeal. subst canHeal.
  pose proof (decrypt8_range h) as Hr.
  cbn [FHE.decrypt8]. rewrite canHeal_decrypt, clampHealth_decrypt.
  unfold canHeal_clear.
  destruct (Z.ltb_spec (FHE.decrypt8 h) 10); cbn [andb]; [ | reflexivity ].
  destruct (10 <=? FHE.decrypt32 b); [ | reflexivity ].
  cbn [FHE.decrypt8]. change (1 mod 2 ^ 8) with 1. zmod.
Qed.

Lemma heal_balance_decrypt (b : FHE.euint32) (h : FHE.euint8) :
  let canHeal :=
    FHE.and (FHE.lt8 h (FHE.asEuint8 MAX_HEALTH))
      (FHE.ge32 b (FHE.asEuint32 HEAL_COST)) in
  FHE.decrypt32
    (FHE.select32 canHeal (FHE.sub32 b (FHE.asEuint32 HEAL_COST)) b)
  = if canHeal_clear (FHE.decrypt32 b) (FHE.decrypt8 h)
    then FHE.decrypt32 b - 10
    else FHE.decrypt32 b.
Proof.
  intros canHeal. subst canHeal.
  pose proof (decrypt32_range b) as Hr.
  cbn [FHE.decrypt32]. rewrite canHeal_decrypt.
  unfold canHeal_clear.
  destruct (FHE.decrypt8 h <? 10); cbn [andb]; [ | reflexivity ].
  destruct (Z.leb_spec 10 (FHE.decrypt32 b)); [ | reflexivity ].
  cbn [FHE.decrypt32]. change (HEAL_COST mod 2 ^ 32) with 10. zmod.
Qed.

(** The reward of a victory, from any scalar. *)
Lemma reward_range (rand : Z) :
  uint32 (rand mod REWARD_SPREAD) = rand mod REWARD_SPREAD /\
  10 <= rand mod REWARD_SPREAD + MIN_REWARD <= 100.
Proof.
  pose proof (Z.mod_pos_bound rand 91 ltac:(lia)) as Hr.
  unfold uint32, REWARD_SPREAD, MIN_REWARD.
  split; [ apply Z.mod_small | ]; lia.
Qed.

(** ** Reading the ledger after a write *)

Lemma getPlayer_setPlayer (s : State) (a b : address) (p : Player) :
  getPlayer (setPlayer s a p) b = if decide (a = b) then p else getPlayer s b.
Proof.
  unfold getPlayer, setPlayer; cbn [players].
  rewrite lookup_insert. case_decide; reflexivity.
Qed.

Lemma getPlayer_settle (c : Ctx) (p : Player) (e : Event) (s : State)
    (b : address) :
  getPlayer (settle c p e s) b
  = if decide (msg_sender c = b) then p else getPlayer s b.
Proof. apply getPlayer_setPlayer. Qed.

Lemma getPlayer_settle_eq (c : Ctx) (p : Player) (e : Event) (s : State) :
  getPlayer (settle c p e s) (msg_sender c) = p.
Proof. rewrite getPlayer_settle. case_decide; congruence. Qed.

Lemma acl_settle (c : Ctx) (p : Player) (e : Event) (s : State) :
  acl (settle c p e s)
  = [ (FHE.H8 (health p), msg_sender c); (FHE.H8 (health p), this c);
      (FHE.H32 (balance p), msg_sender c); (FHE.H32 (balance p), this c) ]
    ++ acl s.
Proof. reflexivity. Qed.

Lemma events_settle (c : Ctx) (p : Player) (e : Event) (s : State) :
  events (settle c p e s) = e :: events s.
Proof. reflexivity. Qed.

(** ** The operations in closed form *)

Lemma joinGame_eq (c : Ctx) (s : State) :
  joinGame c s
  = if joined (getPlayer s (msg_sender c))
    then Revert (Error "Already joined")
    else Ok (settle c joinedPlayer (PlayerJoined (msg_sender c)) s).
Proof.
  unfold joinGame. destruct (joined (getPlayer s (msg_sender c))); reflexivity.
Qed.

Lemma fightMonster_eq (c : Ctx) (s : State) :
  let a := msg_sender c in
  let p := getPlayer s a in
  let reward := scalar c s mod REWARD_SPREAD + MIN_REWARD in
  fightMonster c s
  = if negb (joined p) then Revert (Error "Join first")
    else if victorious c s
    then
      if (victories p + 1 <=? max_uint 64) && (battles p + 1 <=? max_uint 64)
      then Ok (settle c (wonPlayer p reward) (MonsterFought a true reward) s)
      else Revert (Panic 17)
    else
      if battles p + 1 <=? max_uint 64
      then Ok (settle c (lostPlayer p) (MonsterFought a false 0) s)
      else Revert (Panic 17).
Proof.
  intros a p reward. subst a p reward.
  unfold fightMonster, victorious, scalar.
  set (p := getPlayer s (msg_sender c)).
  set (rand := _random c (msg_sender c) (battles p)).
  destruct (joined p) eqn:Hj; simp_record; [ | reflexivity ].
  destruct (rand mod 2 =? 0) eqn:Hv.
  - destruct (reward_range rand) as [Hu Hr]. rewrite Hu.
    assert (Hle : (rand mod REWARD_SPREAD + MIN_REWARD <=? max_uint 32) = true)
      by (apply Z.leb_le; unfold max_uint; lia).
    unfold checked_add. rewrite Hle. simp_record.
    destruct (victories p + 1 <=? max_uint 64); simp_record;
      [ | reflexivity ].
    destruct (battles p + 1 <=? max_uint 64); simp_record; [ | reflexivity ].
    reflexivity.
  - unfold checked_add. simp_record.
    destruct (battles p + 1 <=? max_uint 64); simp_record; [ | reflexivity ].
    reflexivity.
Qed.

Lemma heal_eq (c : Ctx) (s : State) :
  let a := msg_sender c in
  let p := getPlayer s a in
  heal c s
  = if negb (joined p) then Revert (Error "Join first")
    else if heals p + 1 <=? max_uint 64
    then Ok (settle c (healedPlayer p) (HealUsed a (heals p + 1)) s)
    else Revert (Panic 17).
Proof.
  intros a p. subst a p. unfold heal.
  set (p := getPlayer s (msg_sender c)).
  destruct (joined p) eqn:Hj; simp_record; [ | reflexivity ].
  unfold checked_add. simp_record.
  destruct (heals p + 1 <=? max_uint 64); simp_record; [ | reflexivity ].
  reflexivity.
Qed.

(** ** One transaction *)

Lemma exec_effect (k : Call) (c : Ctx) (s : State) : effect c s k (exec k c s).
Proof.
  unfold exec.
  destruct (run k c s) as [s' | f] eqn:Hrun; [ | eapply eff_revert; eassumption ].
  destruct k; cbn [run] in Hrun.
  - rewrite joinGame_eq in Hrun.
    destruct (joined (getPlayer s (msg_sender c))) eqn:Hj; [ discriminate | ].
    injection Hrun as <-. apply eff_join; assumption.
  - rewrite fightMonster_eq in Hrun. cbv zeta in Hrun.
    destruct (joined (getPlayer s (msg_sender c))) eqn:Hj;
      cbn [negb] in Hrun; [ | discriminate ].
    destruct (victorious c s) eqn:Hv.
    + destruct (Z.leb_spec (victories (getPlayer s (msg_sender c)) + 1)
                  (max_uint 64));
        cbn [andb] in Hrun; [ | discriminate ].
      destruct (Z.leb_spec (battles (getPlayer s (msg_sender c)) + 1)
                  (max_uint 64)); [ | discriminate ].
      injection Hrun as <-. apply eff_won; auto.
    + destruct (Z.leb_spec (battles (getPlayer s (msg_sender c)) + 1)
                  (max_uint 64)); [ | discriminate ].
      injection Hrun as <-. apply eff_lost; auto.
  - rewrite heal_eq in Hrun. cbv zeta in Hrun.
    destruct (joined (getPlayer s (msg_sender c))) eqn:Hj;
      cbn [negb] in Hrun; [ | discriminate ].
    destruct (Z.leb_spec (heals (getPlayer s (msg_sender c)) + 1)
                (max_uint 64)); [ | discriminate ].
    injection Hrun as <-. apply eff_heal; auto.
Qed.

Lemma exec_Heal_cases (c : Ctx) (s : State) :
  let p := getPlayer s (msg_sender c) in
  exec Heal c s = s \/
  joined p = true /\ heals p + 1 <= max_uint 64 /\
  exec Heal c s
  = settle c (healedPlayer p) (HealUsed (msg_sender c) (heals p + 1)) s.
Proof.
  intros p. subst p. unfold exec; cbn [run]. rewrite heal_eq; cbv zeta.
  destruct (joined (getPlayer s (msg_sender c))); cbn [negb]; [ | auto ].
  destruct (Z.leb_spec (heals (getPlayer s (msg_sender c)) + 1) (max_uint 64));
    auto.
Qed.

Lemma exec_FightMonster_cases (c : Ctx) (s : State) :
  let p := getPlayer s (msg_sender c) in
  let reward := scalar c s mod REWARD_SPREAD + MIN_REWARD in
  exec FightMonster c s = s \/
  (joined p = true /\ victorious c s = true /\
   victories p + 1 <= max_uint 64 /\ battles p + 1 <= max_uint 64 /\
   exec FightMonster c s
   = settle c (wonPlayer p reward)
       (MonsterFought (msg_sender c) true reward) s) \/
  (joined p = true /\ victorious c s = false /\
   battles p + 1 <= max_uint 64 /\
   exec FightMonster c s
   = settle c (lostPlayer p) (MonsterFought (msg_sender c) false 0) s).
Proof.
  intros p reward. subst p reward. unfold exec; cbn [run].
  rewrite fightMonster_eq; cbv zeta.
  destruct (joined (getPlayer s (msg_sender c))); cbn [negb]; [ | auto ].
  destruct (victorious c s).
  - destruct (Z.leb_spec (victories (getPlayer s (msg_sender c)) + 1)
                (max_uint 64)); cbn [andb]; [ | auto ].
    destruct (Z.leb_spec (battles (getPlayer s (msg_sender c)) + 1)
                (max_uint 64)); auto 10.
  - destruct (Z.leb_spec (battles (getPlayer s (msg_sender c)) + 1)
                (max_uint 64)); auto 10.
Qed.

(** A property of single records that every written record keeps holds in
    every reachable state. *)
Lemma reachable_records (P : Player -> Prop) :
  P zeroPlayer ->
  P joinedPlayer ->
  (forall p r, P p -> 10 <= r <= 100 -> P (wonPlayer p r)) ->
  (forall p, P p -> P (lostPlayer p)) ->
  (forall p, P p -> P (healedPlayer p)) ->
  forall s, reachable s -> forall a, P (getPlayer s a).
Proof.
  intros H0 HJ HW HL HH s Hs.
  induction Hs as [ | k c s Hs IH ]; intros a.
  - exact H0.
  - destruct (exec_effect k c s) as [ k f _ | Hj | r Hj Hv Hr Hvi Hb | Hj Hv Hb | Hj Hh ];
      try apply IH;
      rewrite getPlayer_settle; case_decide; try apply IH.
    + exact HJ.
    + apply HW; [ apply IH | ].
      subst r. pose proof (Z.mod_pos_bound (scalar c s) 91 ltac:(lia)).
      unfold REWARD_SPREAD, MIN_REWARD. lia.
    + apply HL, IH.
    + apply HH, IH.
Qed.

Lemma run_Ok_settle (k : Call) (c : Ctx) (s s' : State) :
  run k c s = Ok s' -> exists p' e, s' = settle c p' e s.
Proof.
  intros Hrun. pose proof (exec_effect k c s) as E.
  unfold exec in E. rewrite Hrun in E.
  inversion E; subst; try congruence; eauto.
Qed.

(** ** Joining *)

(** C4.  For an identity that has not joined, [joinGame] succeeds; afterwards
    the identity has joined, its balance decodes to 1000, its health to 10,
    and its three counters are 0. *)
Theorem joinGame_initialises (c : Ctx) (s : State) :
  joined (getPlayer s (msg_sender c)) = false ->
  exists s',
    joinGame c s = Ok s' /\
    joined (getPlayer s' (msg_sender c)) = true /\
    coins s' (msg_sender c) = 1000 /\
    hp s' (msg_sender c) = 10 /\
    battles (getPlayer s' (msg_sender c)) = 0 /\
    victories (getPlayer s' (msg_sender c)) = 0 /\
    heals (getPlayer s' (msg_sender c)) = 0.
Proof.
  intros Hj. eexists. rewrite joinGame_eq, Hj. split; [ reflexivity | ].
  unfold coins, hp. rewrite getPlayer_settle_eq.
  repeat split; reflexivity.
Qed.

Lemma joinGame_initialises_witness :
  joined (getPlayer genesis alice) = false /\
  exists s',
    joinGame (call 0) genesis = Ok s' /\
    joined (getPlayer s' alice) = true /\
    coins s' alice = 1000 /\
    hp s' alice = 10 /\
    battles (getPlayer s' alice) = 0 /\
    victories (getPlayer s' alice) = 0 /\
    heals (getPlayer s' alice) = 0.
Proof.
  split; [ reflexivity | ].
  apply (joinGame_initialises (call 0) genesis). reflexivity.
Defined.

(** ** Rejected calls *)

(** C5.  A violated precondition aborts the call with its own failure and
    changes nothing: [joinGame] by a joined identity fails with
    "Already joined"; [fightMonster] and [heal] by an identity that has not
    joined fail with "Join first"; the three guarded readers fail with
    "Player not found" for an identity that has not joined.  The three
    failures are pairwise distinct, and the ledger after such a call is the
    ledger before it. *)
Theorem precondition_failures (c : Ctx) (s : State) (playerAddress : address) :
  (joined (getPlayer s (msg_sender c)) = true ->
     joinGame c s = Revert (Error "Already joined") /\
     exec JoinGame c s = s) /\
  (joined (getPlayer s (msg_sender c)) = false ->
     fightMonster c s = Revert (Error "Join first") /\
     heal c s = Revert (Error "Join first") /\
     exec FightMonster c s = s /\
     exec Heal c s = s) /\
  (joined (getPlayer s playerAddress) = false ->
     getEncryptedBalance s playerAddress = Revert (Error "Player not found") /\
     getEncryptedHealth s playerAddress = Revert (Error "Player not found") /\
     getPlayerStats s playerAddress = Revert (Error "Player not found")) /\
  Error "Already joined" <> Error "Join first" /\
  Error "Already joined" <> Error "Player not found" /\
  Error "Join first" <> Error "Player not found".
Proof.
  split; [ | split; [ | split ] ].
  - intros Hj. unfold exec; cbn [run]. rewrite joinGame_eq, Hj.
    split; reflexivity.
  - intros Hj. unfold exec; cbn [run].
    rewrite fightMonster_eq, heal_eq; cbv zeta. rewrite Hj.
    repeat split; reflexivity.
  - intros Hj.
    unfold getEncryptedBalance, getEncryptedHealth, getPlayerStats.
    rewrite Hj. repeat split; reflexivity.
  - repeat split; discriminate.
Qed.

Lemma precondition_failures_witness :
  (joinGame (call 0) fresh = Revert (Error "Already joined") /\
   exec JoinGame (call 0) fresh = fresh) /\
  (fightMonster (call 0) genesis = Revert (Error "Join first") /\
   heal (call 0) genesis = Revert (Error "Join first") /\
   exec FightMonster (call 0) genesis = genesis /\
   exec Heal (call 0) genesis = genesis) /\
  (getEncryptedBalance genesis alice = Revert (Error "Player not found") /\
   getEncryptedHealth genesis alice = Revert (Error "Player not found") /\
   getPlayerStats genesis alice = Revert (Error "Player not found")).
Proof.
  split; [ | split ].
  - apply (precondition_failures (call 0) fresh alice). reflexivity.
  - apply (precondition_failures (call 0) genesis alice). reflexivity.
  - apply (precondition_failures (call 0) genesis alice). reflexivity.
Defined.

(** ** The join flag *)

Lemma joined_exec (k : Call) (c : Ctx) (s : State) (a : address) :
  joined (getPlayer (exec k c s) a)
  = joined (getPlayer s a)
    || (if k is JoinGame then bool_decide (msg_sender c = a) else false).
Proof.
  destruct (exec_effect k c s)
    as [ k f Hrun | Hj | r Hj Hv Hr Hvi Hb | Hj Hv Hb | Hj Hh ].
  - destruct k; try (rewrite orb_false_r; reflexivity).
    cbn [run] in Hrun. rewrite joinGame_eq in Hrun.
    destruct (joined (getPlayer s (msg_sender c))) eqn:Hj; [ | discriminate ].
    case_bool_decide; subst; [ rewrite Hj | rewrite orb_false_r ]; reflexivity.
  - rewrite getPlayer_settle. case_bool_decide; case_decide; subst;
      try congruence.
    + rewrite orb_true_r. reflexivity.
    + rewrite orb_false_r. reflexivity.
  - rewrite getPlayer_settle, orb_false_r. case_decide; subst; reflexivity.
  - rewrite getPlayer_settle, orb_false_r. case_decide; subst; reflexivity.
  - rewrite getPlayer_settle, orb_false_r. case_decide; subst; reflexivity.
Qed.

Lemma joined_replay (h : list (Call * Ctx)) (s : State) (a : address) :
  joined (getPlayer s a) = true -> joined (getPlayer (replay h s) a) = true.
Proof.
  revert s. induction h as [ | [k c] h IH ]; intros s Hj; cbn [replay].
  - exact Hj.
  - apply IH. rewrite joined_exec, Hj. reflexivity.
Qed.

(** C7.  [hasJoined] has no precondition and answers false on the untouched
    ledger; while it answers false for an identity, the only call that
    turns it to true is a [joinGame] by that identity, which then succeeds;
    once true it is true after every further history, so no operation
    clears the flag. *)
Theorem hasJoined_false_then_true_forever (a : address) :
  hasJoined genesis a = false /\
  (forall k c s,
     hasJoined s a = false ->
     (hasJoined (exec k c s) a = true <->
      k = JoinGame /\ msg_sender c = a /\ exists s', joinGame c s = Ok s')) /\
  (forall h s, hasJoined s a = true -> hasJoined (replay h s) a = true).
Proof.
  unfold hasJoined. split; [ reflexivity | split ].
  - intros k c s Hj. rewrite joined_exec, Hj. cbn [orb]. split.
    + destruct k; try discriminate.
      intros Hd. apply bool_decide_eq_true in Hd.
      split; [ reflexivity | split; [ exact Hd | ] ].
      subst a. rewrite joinGame_eq, Hj. eauto.
    + intros (-> & Ha & _). apply bool_decide_eq_true. exact Ha.
  - intros h s. apply joined_replay.
Qed.

(** ** Permissions *)

(** C8.  Every successful [joinGame], [fightMonster] or [heal] grants, in
    that very call and whether or not a decoded value moved, permission on
    the balance and health ciphertexts it leaves in the caller's record,
    each to the contract itself and to the caller: the four grants are the
    newest entries of the permission list. *)
Theorem mutation_regrants (k : Call) (c : Ctx) (s s' : State) :
  run k c s = Ok s' ->
  let p' := getPlayer s' (msg_sender c) in
  acl s'
  = [ (FHE.H8 (health p'), msg_sender c); (FHE.H8 (health p'), this c);
      (FHE.H32 (balance p'), msg_sender c); (FHE.H32 (balance p'), this c) ]
    ++ acl s.
Proof.
  intros Hrun p'. subst p'.
  destruct (run_Ok_settle k c s s' Hrun) as (q & e & ->).
  rewrite getPlayer_settle_eq. apply acl_settle.
Qed.

(** A heal at full health moves no decoded value and still grants afresh. *)
Lemma mutation_regrants_witness :
  exists s',
    run Heal (call 0) fresh = Ok s' /\
    coins s' alice = coins fresh alice /\
    hp s' alice = hp fresh alice /\
    acl s'
    = [ (FHE.H8 (health (getPlayer s' alice)), alice);
        (FHE.H8 (health (getPlayer s' alice)), game);
        (FHE.H32 (balance (getPlayer s' alice)), alice);
        (FHE.H32 (balance (getPlayer s' alice)), game) ]
      ++ acl fresh.
Proof.
  destruct (run Heal (call 0) fresh) as [s' | f] eqn:Hrun;
    [ | vm_compute in Hrun; discriminate ].
  exists s'. split; [ reflexivity | ].
  split; [ | split ].
  - vm_compute in Hrun. injection Hrun as <-. reflexivity.
  - vm_compute in Hrun. injection Hrun as <-. reflexivity.
  - exact (mutation_regrants Heal (call 0) fresh s' Hrun).
Defined.

(** ** Invariants of reachable ledgers *)

(** C2.  In every reachable ledger the health of every record decodes to a
    value between 0 and 10, both included. *)
Theorem health_in_range (s : State) :
  reachable s -> forall a, 0 <= hp s a <= 10.
Proof.
  intros Hs a. unfold hp. revert s Hs a.
  apply (reachable_records (fun p => 0 <= FHE.decrypt8 (health p) <= 10)).
  - change (FHE.decrypt8 (health zeroPlayer)) with 0. lia.
  - change (FHE.decrypt8 (health joinedPlayer)) with 10. lia.
  - intros p r Hp _. exact Hp.
  - intros p Hp. unfold lostPlayer; cbn [health].
    rewrite reduceHealth_decrypt. lia.
  - intros p Hp. unfold healedPlayer; cbn [health].
    rewrite heal_health_decrypt.
    destruct (canHeal_clear _ _); lia.
Qed.

Lemma health_in_range_witness :
  reachable hurt /\ 0 <= hp hurt alice <= 10.
Proof.
  assert (Hr : reachable hurt) by (do 2 apply reach_step; apply reach_genesis).
  split; [ exact Hr | exact (health_in_range hurt Hr alice) ].
Defined.

(** [victories <= battles] in every record of every reachable ledger. *)
Lemma victories_bounded_by_battles (s : State) (a : address) :
  reachable s ->
  0 <= victories (getPlayer s a) <= battles (getPlayer s a).
Proof.
  intros Hs. revert s Hs a.
  apply (reachable_records (fun p => 0 <= victories p <= battles p));
    cbn; intros; lia.
Qed.

(** C6.  In every reachable ledger every balance decodes to a value that is
    not negative, and a [heal] never stores a wrapped difference: it either
    leaves the decoded balance as it was, or lowers it by exactly 10, and
    the latter only for the caller and only when the balance is at least
    10 and the health below 10. *)
Theorem balance_never_negative (s : State) :
  reachable s ->
  forall a,
    0 <= coins s a /\
    (forall c,
       let s' := exec Heal c s in
       0 <= coins s' a <= coins s a /\
       (coins s' a = coins s a \/
        coins s' a = coins s a - 10 /\ 10 <= coins s a /\ hp s a < 10 /\
        a = msg_sender c)).
Proof.
  intros _ a.
  split; [ apply decrypt32_range | ].
  intros c s'. subst s'.
  pose proof (decrypt32_range (balance (getPlayer s a))) as Hb.
  destruct (exec_Heal_cases c s) as [ -> | (Hj & Hh & ->) ];
    [ unfold coins; lia | ].
  unfold coins, hp. rewrite getPlayer_settle.
  case_decide as Ha; [ subst a | lia ].
  unfold healedPlayer; cbn [balance].
  rewrite heal_balance_decrypt. unfold canHeal_clear.
  destruct (Z.ltb_spec (FHE.decrypt8 (health (getPlayer s (msg_sender c)))) 10);
    cbn [andb]; [ | lia ].
  destruct (Z.leb_spec 10 (FHE.decrypt32 (balance (getPlayer s (msg_sender c)))));
    lia.
Qed.

Lemma balance_never_negative_witness :
  reachable hurt /\
  0 <= coins hurt alice /\
  coins (exec Heal (call 0) hurt) alice = coins hurt alice - 10.
Proof.
  assert (Hr : reachable hurt) by (do 2 apply reach_step; apply reach_genesis).
  split; [ exact Hr | ].
  split; [ exact (proj1 (balance_never_negative hurt Hr alice)) | reflexivity ].
Defined.

(** ** What a call leaves alone *)

(** C10.  A fight touches only the field of its outcome: after a victorious
    [fightMonster] every health ciphertext, hence every decoded health, is
    what it was; after a defeated one every balance is; [fightMonster]
    changes no [joined] flag and no [heals] counter, and [heal] changes no
    [joined] flag. *)
Theorem fight_and_heal_frame (c : Ctx) (s : State) (a : address) :
  let s' := exec FightMonster c s in
  (victorious c s = true ->
     health (getPlayer s' a) = health (getPlayer s a) /\ hp s' a = hp s a) /\
  (victorious c s = false ->
     balance (getPlayer s' a) = balance (getPlayer s a) /\
     coins s' a = coins s a) /\
  joined (getPlayer s' a) = joined (getPlayer s a) /\
  heals (getPlayer s' a) = heals (getPlayer s a) /\
  joined (getPlayer (exec Heal c s) a) = joined (getPlayer s a).
Proof.
  intros s'. subst s'. unfold hp, coins.
  split; [ | split; [ | split; [ | split ] ] ].
  - intros Hw.
    destruct (exec_FightMonster_cases c s)
      as [ -> | [ (Hj & Hv & Hvi & Hb & ->) | (Hj & Hv & Hb & ->) ] ];
      [ split; reflexivity | | congruence ].
    rewrite getPlayer_settle. case_decide; subst; split; reflexivity.
  - intros Hl.
    destruct (exec_FightMonster_cases c s)
      as [ -> | [ (Hj & Hv & Hvi & Hb & ->) | (Hj & Hv & Hb & ->) ] ];
      [ split; reflexivity | congruence | ].
    rewrite getPlayer_settle. case_decide; subst; split; reflexivity.
  - rewrite joined_exec. apply orb_false_r.
  - destruct (exec_FightMonster_cases c s)
      as [ -> | [ (Hj & Hv & Hvi & Hb & ->) | (Hj & Hv & Hb & ->) ] ];
      [ reflexivity | | ];
      rewrite getPlayer_settle; case_decide; subst; reflexivity.
  - rewrite joined_exec. apply orb_false_r.
Qed.

(** ** Successful calls *)

Lemma heal_Ok (c : Ctx) (s : State) :
  let p := getPlayer s (msg_sender c) in
  joined p = true -> heals p < max_uint 64 ->
  heal c s
  = Ok (settle c (healedPlayer p) (HealUsed (msg_sender c) (heals p + 1)) s).
Proof.
  intros p Hj Hh. rewrite heal_eq; cbv zeta. fold p. rewrite Hj; cbn [negb].
  destruct (Z.leb_spec (heals p + 1) (max_uint 64)); [ reflexivity | lia ].
Qed.

Lemma heal_Panic (c : Ctx) (s : State) :
  let p := getPlayer s (msg_sender c) in
  joined p = true -> max_uint 64 <= heals p ->
  heal c s = Revert (Panic 17).
Proof.
  intros p Hj Hh. rewrite heal_eq; cbv zeta. fold p. rewrite Hj; cbn [negb].
  destruct (Z.leb_spec (heals p + 1) (max_uint 64)); [ lia | reflexivity ].
Qed.

Lemma fightMonster_won (c : Ctx) (s : State) :
  let p := getPlayer s (msg_sender c) in
  let reward := scalar c s mod REWARD_SPREAD + MIN_REWARD in
  joined p = true -> victorious c s = true ->
  victories p < max_uint 64 -> battles p < max_uint 64 ->
  fightMonster c s
  = Ok (settle c (wonPlayer p reward)
          (MonsterFought (msg_sender c) true reward) s).
Proof.
  intros p reward Hj Hv Hvi Hb. rewrite fightMonster_eq; cbv zeta.
  fold p. rewrite Hj, Hv; cbn [negb].
  destruct (Z.leb_spec (victories p + 1) (max_uint 64)); [ | lia ].
  destruct (Z.leb_spec (battles p + 1) (max_uint 64)); [ reflexivity | lia ].
Qed.

Lemma fightMonster_lost (c : Ctx) (s : State) :
  let p := getPlayer s (msg_sender c) in
  joined p = true -> victorious c s = false -> battles p < max_uint 64 ->
  fightMonster c s
  = Ok (settle c (lostPlayer p) (MonsterFought (msg_sender c) false 0) s).
Proof.
  intros p Hj Hv Hb. rewrite fightMonster_eq; cbv zeta.
  fold p. rewrite Hj, Hv; cbn [negb].
  destruct (Z.leb_spec (battles p + 1) (max_uint 64)); [ reflexivity | lia ].
Qed.

Lemma fightMonster_Panic (c : Ctx) (s : State) :
  let p := getPlayer s (msg_sender c) in
  joined p = true -> max_uint 64 <= battles p ->
  fightMonster c s = Revert (Panic 17).
Proof.
  intros p Hj Hb. rewrite fightMonster_eq; cbv zeta.
  fold p. rewrite Hj; cbn [negb].
  destruct (Z.leb_spec (battles p + 1) (max_uint 64)); [ lia | ].
  rewrite andb_false_r. destruct (victorious c s); reflexivity.
Qed.

Lemma victorious_even (c : Ctx) (s : State) :
  victorious c s = Z.even (scalar c s).
Proof.
  unfold victorious. rewrite Zmod_even.
  destruct (Z.even (scalar c s)); reflexivity.
Qed.

(** ** Long histories *)

(** Alice joins and then heals [n] times at full health. *)
Lemma reach_heals (n : Z) :
  0 <= n -> n <= max_uint 64 ->
  exists s,
    reachable s /\ joined (getPlayer s alice) = true /\
    heals (getPlayer s alice) = n.
Proof.
  intros Hn. pattern n. apply natlike_ind; [ | | exact Hn ]; clear n Hn.
  - intros _. exists fresh.
    split; [ apply reach_step, reach_genesis | split; reflexivity ].
  - intros n Hn IH Hle.
    destruct IH as (s & Hr & Hj & Hh); [ lia | ].
    exists (exec Heal (call 0) s).
    split; [ apply reach_step, Hr | ].
    unfold exec; cbn [run]. rewrite heal_Ok by (cbn [call msg_sender]; lia || exact Hj).
    change alice with (msg_sender (call 0)). rewrite getPlayer_settle_eq.
    cbn [healedPlayer joined heals call msg_sender]. split; [ exact Hj | lia ].
Qed.

(** Alice joins and then loses [n] fights. *)
Lemma reach_defeats (n : Z) :
  0 <= n -> n <= max_uint 64 ->
  exists s,
    reachable s /\ joined (getPlayer s alice) = true /\
    battles (getPlayer s alice) = n.
Proof.
  intros Hn. pattern n. apply natlike_ind; [ | | exact Hn ]; clear n Hn.
  - intros _. exists fresh.
    split; [ apply reach_step, reach_genesis | split; reflexivity ].
  - intros n Hn IH Hle.
    destruct IH as (s & Hr & Hj & Hb); [ lia | ].
    exists (exec FightMonster (call 1) s).
    split; [ apply reach_step, Hr | ].
    unfold exec; cbn [run].
    rewrite fightMonster_lost
      by (cbn [call msg_sender]; first [ exact Hj | reflexivity | lia ]).
    change alice with (msg_sender (call 1)). rewrite getPlayer_settle_eq.
    cbn [lostPlayer joined battles call msg_sender]. split; [ exact Hj | lia ].
Qed.

(** Alice joins and then wins [n] fights of 100 coins each. *)
Lemma reach_victories (n : Z) :
  0 <= n -> n <= 42949662 ->
  exists s,
    reachable s /\ joined (getPlayer s alice) = true /\
    coins s alice = 1000 + 100 * n /\
    battles (getPlayer s alice) = n /\ victories (getPlayer s alice) = n.
Proof.
  intros Hn. pattern n. apply natlike_ind; [ | | exact Hn ]; clear n Hn.
  - intros _. exists fresh.
    split; [ apply reach_step, reach_genesis | repeat split; reflexivity ].
  - intros n Hn IH Hle.
    destruct IH as (s & Hr & Hj & Hc & Hb & Hv); [ lia | ].
    exists (exec FightMonster (call 90) s).
    split; [ apply reach_step, Hr | ].
    unfold exec; cbn [run].
    rewrite fightMonster_won
      by (cbn [call msg_sender]; unfold max_uint;
          first [ exact Hj | reflexivity | lia ]).
    unfold coins in *.
    change alice with (msg_sender (call 90)). rewrite getPlayer_settle_eq.
    cbn [wonPlayer joined battles victories balance call msg_sender].
    split; [ exact Hj | ]. split; [ | lia ].
    change (scalar (call 90) s mod REWARD_SPREAD + MIN_REWARD) with 100.
    cbn [FHE.decrypt32]. change (100 mod 2 ^ 32) with 100.
    rewrite Hc. zmod.
Qed.

(** ** Healing *)

(** C1, as the contract has it.  For a joined caller whose [heals] counter
    is below 2^64 - 1, [heal] succeeds and adds exactly 1 to [heals]; when
    the health decodes below 10 and the balance to at least 10 the balance
    afterwards decodes to 10 less and the health to
    [min (health + 1) 10]; otherwise both decode as before; nothing else in
    the record moves.  The call is never rejected for a false predicate:
    both new ciphertexts are conditional selects on the encrypted
    [canHeal].  With the counter at 2^64 - 1 the checked increment reverts
    the call. *)
Theorem heal_effect (c : Ctx) (s : State) :
  joined (getPlayer s (msg_sender c)) = true ->
  (heals (getPlayer s (msg_sender c)) < max_uint 64 ->
   exists s',
     heal c s = Ok s' /\
     let a := msg_sender c in
     let p := getPlayer s a in
     let p' := getPlayer s' a in
     heals p' = heals p + 1 /\
     (if (hp s a <? 10) && (10 <=? coins s a)
      then coins s' a = coins s a - 10 /\ hp s' a = Z.min (hp s a + 1) 10
      else coins s' a = coins s a /\ hp s' a = hp s a) /\
     joined p' = true /\ battles p' = battles p /\
     victories p' = victories p /\
     exists canHeal,
       FHE.decryptBool canHeal = (hp s a <? 10) && (10 <=? coins s a) /\
       balance p'
       = FHE.select32 canHeal
           (FHE.sub32 (balance p) (FHE.asEuint32 HEAL_COST)) (balance p) /\
       health p'
       = FHE.select8 canHeal
           (_clampHealth (FHE.add8 (health p) (FHE.asEuint8 1))) (health p)) /\
  (max_uint 64 <= heals (getPlayer s (msg_sender c)) ->
   heal c s = Revert (Panic 17) /\ exec Heal c s = s).
Proof.
  intros Hj. split.
  - intros Hh. eexists. split; [ apply heal_Ok; assumption | ].
    cbv zeta. unfold coins, hp. rewrite getPlayer_settle_eq.
    set (p := getPlayer s (msg_sender c)) in *.
    split; [ reflexivity | ].
    split.
    { unfold healedPlayer; cbn [balance health].
      rewrite heal_balance_decrypt, heal_health_decrypt.
      unfold canHeal_clear. destruct (_ && _); split; reflexivity. }
    split; [ exact Hj | ].
    split; [ reflexivity | ].
    split; [ reflexivity | ].
    eexists. split; [ | split; reflexivity ].
    apply canHeal_decrypt.
  - intros Hh. split; [ apply heal_Panic; assumption | ].
    unfold exec; cbn [run]. rewrite heal_Panic by assumption. reflexivity.
Qed.

Lemma heal_effect_witness :
  joined (getPlayer hurt alice) = true /\
  heals (getPlayer hurt alice) < max_uint 64 /\
  exists s',
    heal (call 0) hurt = Ok s' /\
    heals (getPlayer s' alice) = 1 /\
    coins s' alice = 990 /\ hp s' alice = 10.
Proof.
  assert (Hj : joined (getPlayer hurt (msg_sender (call 0))) = true)
    by reflexivity.
  assert (Hh : heals (getPlayer hurt (msg_sender (call 0))) < max_uint 64)
    by reflexivity.
  split; [ exact Hj | ]. split; [ exact Hh | ].
  destruct (proj1 (heal_effect (call 0) hurt Hj) Hh)
    as (s' & Hrun & Hheals & Hmove & _).
  exists s'. split; [ exact Hrun | ].
  split; [ exact Hheals | exact Hmove ].
Defined.

(** C1 as stated fails: after 2^64 - 1 heals the counter is full and the
    next [heal] by the joined caller reverts instead of counting. *)
Lemma heal_counter_saturates :
  ~ (forall c s,
       reachable s ->
       joined (getPlayer s (msg_sender c)) = true ->
       heals (getPlayer (exec Heal c s) (msg_sender c))
       = heals (getPlayer s (msg_sender c)) + 1).
Proof.
  intros H.
  destruct (reach_heals (max_uint 64)) as (s & Hr & Hj & Hh);
    [ unfold max_uint; lia | lia | ].
  specialize (H (call 0) s Hr Hj).
  unfold exec in H; cbn [run] in H.
  rewrite heal_Panic in H by (cbn [call msg_sender]; first [ exact Hj | lia ]).
  lia.
Qed.

(** ** Fighting *)

(** C3, as the contract has it.  For a joined caller whose [battles] counter
    is below 2^64 - 1 (and whose [victories] do not exceed it, as in every
    reachable ledger), [fightMonster] succeeds, adds exactly 1 to
    [battles], and logs [MonsterFought] with the victory flag set exactly
    when the scalar is even.  On victory [victories] grows by exactly 1,
    the reward is [scalar mod 91 + 10], a value from 10 to 100, and the
    balance afterwards decodes to [balance + reward] modulo 2^32, which is
    within [balance + 10, balance + 100] whenever that sum fits 32 bits.
    On defeat [victories] stays, the reward is 0 and the health afterwards
    decodes to [max 0 (health - 1)].  With [battles] at 2^64 - 1 the
    checked increment reverts the call. *)
Theorem fightMonster_effect (c : Ctx) (s : State) :
  joined (getPlayer s (msg_sender c)) = true ->
  victories (getPlayer s (msg_sender c))
  <= battles (getPlayer s (msg_sender c)) ->
  (battles (getPlayer s (msg_sender c)) < max_uint 64 ->
   exists s' reward,
     fightMonster c s = Ok s' /\
     let a := msg_sender c in
     let p := getPlayer s a in
     let p' := getPlayer s' a in
     battles p' = battles p + 1 /\
     events s' = MonsterFought a (Z.even (scalar c s)) reward :: events s /\
     if Z.even (scalar c s)
     then
       victories p' = victories p + 1 /\
       reward = scalar c s mod 91 + 10 /\ 10 <= reward <= 100 /\
       coins s' a = (coins s a + reward) mod 2 ^ 32 /\
       (coins s a + reward < 2 ^ 32 ->
        coins s a + 10 <= coins s' a <= coins s a + 100)
     else
       victories p' = victories p /\ reward = 0 /\
       hp s' a = Z.max 0 (hp s a - 1)) /\
  (max_uint 64 <= battles (getPlayer s (msg_sender c)) ->
   fightMonster c s = Revert (Panic 17) /\ exec FightMonster c s = s).
Proof.
  intros Hj Hvb. split.
  - intros Hb. rewrite <- victorious_even.
    destruct (victorious c s) eqn:Hv.
    + eexists _, _. split; [ apply fightMonster_won; (assumption || lia) | ].
      cbv zeta. unfold coins, hp. rewrite getPlayer_settle_eq, events_settle.
      set (p := getPlayer s (msg_sender c)) in *.
      pose proof (Z.mod_pos_bound (scalar c s) 91 ltac:(lia)) as Hm.
      pose proof (decrypt32_range (balance p)) as Hr.
      unfold wonPlayer; cbn [battles victories balance FHE.decrypt32].
      unfold REWARD_SPREAD, MIN_REWARD.
      rewrite (Z.mod_small (scalar c s mod 91 + 10) (2 ^ 32)) by lia.
      repeat split; try lia.
      * rewrite Z.mod_small; lia.
      * rewrite Z.mod_small; lia.
    + eexists _, _. split; [ apply fightMonster_lost; assumption | ].
      cbv zeta. unfold coins, hp. rewrite getPlayer_settle_eq, events_settle.
      unfold lostPlayer; cbn [battles victories health].
      rewrite reduceHealth_decrypt. repeat split; reflexivity.
  - intros Hb. split; [ apply fightMonster_Panic; assumption | ].
    unfold exec; cbn [run]. rewrite fightMonster_Panic by assumption.
    reflexivity.
Qed.

Lemma fightMonster_effect_witness :
  joined (getPlayer fresh alice) = true /\
  victories (getPlayer fresh alice) <= battles (getPlayer fresh alice) /\
  battles (getPlayer fresh alice) < max_uint 64 /\
  exists s' reward,
    fightMonster (call 90) fresh = Ok s' /\
    battles (getPlayer s' alice) = 1 /\
    events s' = MonsterFought alice true reward :: events fresh /\
    victories (getPlayer s' alice) = 1 /\
    reward = 100 /\ coins s' alice = 1100.
Proof.
  assert (Hj : joined (getPlayer fresh (msg_sender (call 90))) = true)
    by reflexivity.
  assert (Hvb : victories (getPlayer fresh (msg_sender (call 90)))
                <= battles (getPlayer fresh (msg_sender (call 90))))
    by (vm_compute; discriminate).
  assert (Hb : battles (getPlayer fresh (msg_sender (call 90))) < max_uint 64)
    by reflexivity.
  split; [ exact Hj | ]. split; [ exact Hvb | ]. split; [ exact Hb | ].
  destruct (proj1 (fightMonster_effect (call 90) fresh Hj Hvb) Hb)
    as (s' & reward & Hrun & Hbat & Hev & Hvi & Hrw & _ & Hco & _).
  exists s', reward. split; [ exact Hrun | ].
  split; [ exact Hbat | ]. split; [ exact Hev | ].
  split; [ exact Hvi | ]. split; [ exact Hrw | ].
  etransitivity; [ exact Hco | ]. rewrite Hrw. reflexivity.
Defined.

(** C3 as stated fails twice over.  After 42,949,662 victories of 100 coins
    the balance decodes to 4,294,967,200 and one more 100-coin victory
    wraps it round to 4; and after 2^64 - 1 fights the [battles] counter is
    full and the next [fightMonster] reverts instead of counting. *)
Lemma fightMonster_wraps_and_saturates :
  ~ (forall c s,
       reachable s ->
       joined (getPlayer s (msg_sender c)) = true ->
       Z.even (scalar c s) = true ->
       coins s (msg_sender c) + 10
       <= coins (exec FightMonster c s) (msg_sender c)) /\
  ~ (forall c s,
       reachable s ->
       joined (getPlayer s (msg_sender c)) = true ->
       battles (getPlayer (exec FightMonster c s) (msg_sender c))
       = battles (getPlayer s (msg_sender c)) + 1).
Proof.
  split; intros H.
  - destruct (reach_victories 42949662) as (s & Hr & Hj & Hc & Hb & Hv);
      [ lia | lia | ].
    specialize (H (call 90) s Hr Hj eq_refl).
    unfold exec in H; cbn [run] in H.
    rewrite fightMonster_won in H
      by (cbn [call msg_sender]; unfold max_uint;
          first [ exact Hj | reflexivity | lia ]).
    unfold coins in *. rewrite getPlayer_settle_eq in H.
    cbn [wonPlayer balance call msg_sender FHE.decrypt32] in H.
    change (scalar (call 90) s mod REWARD_SPREAD + MIN_REWARD) with 100 in H.
    rewrite Hc in H. vm_compute in H. apply H. reflexivity.
  - destruct (reach_defeats (max_uint 64)) as (s & Hr & Hj & Hb);
      [ unfold max_uint; lia | lia | ].
    specialize (H (call 1) s Hr Hj).
    unfold exec in H; cbn [run] in H.
    rewrite fightMonster_Panic in H
      by (cbn [call msg_sender]; first [ exact Hj | lia ]).
    lia.
Qed.

(** ** The two limits, evaluated *)

Example wealthy_victory_wraps :
  coins (ledger_of wealthy) alice = 4294967200 /\
  victorious (call 90) (ledger_of wealthy) = true /\
  coins (exec FightMonster (call 90) (ledger_of wealthy)) alice = 4.
Proof. repeat split; vm_compute; reflexivity. Qed.

Example tireless_heal_reverts :
  heal (call 0) (ledger_of tireless) = Revert (Panic 17).
Proof. vm_compute. reflexivity. Qed.

Example veteran_fight_reverts :
  fightMonster (call 1) (ledger_of veteran) = Revert (Panic 17).
Proof. vm_compute. reflexivity. Qed.

(** ** Further properties of the ledger *)

(** X1.  A call changes no record but the caller's. *)
Theorem calls_touch_only_caller (k : Call) (c : Ctx) (s : State) (b : address) :
  b <> msg_sender c -> getPlayer (exec k c s) b = getPlayer s b.
Proof.
  intros Hb.
  destruct (exec_effect k c s)
    as [ k f _ | Hj | r Hj Hv Hr Hvi Hbt | Hj Hv Hbt | Hj Hh ];
    [ reflexivity | .. ];
    rewrite getPlayer_settle; case_decide; congruence.
Qed.

Lemma calls_touch_only_caller_witness :
  bob <> alice /\
  getPlayer (exec FightMonster (call 90) fresh) bob = getPlayer fresh bob.
Proof.
  assert (Hb : bob <> msg_sender (call 90)) by discriminate.
  split; [ exact Hb | ].
  exact (calls_touch_only_caller FightMonster (call 90) fresh bob Hb).
Defined.

Lemma acl_exec (k : Call) (c : Ctx) (s : State) :
  exists g,
    acl (exec k c s) = g ++ acl s /\
    (length (events (exec k c s)) * 4
     = length g + length (events s) * 4)%nat.
Proof.
  destruct (exec_effect k c s)
    as [ k f _ | Hj | r Hj Hv Hr Hvi Hbt | Hj Hv Hbt | Hj Hh ];
    [ exists []; split; reflexivity | .. ];
    rewrite acl_settle, events_settle;
    (eexists; split; [ reflexivity | cbn; lia ]).
Qed.

Lemma acl_replay (h : list (Call * Ctx)) (s : State) :
  exists g, acl (replay h s) = g ++ acl s.
Proof.
  revert s. induction h as [ | [k c] h IH ]; intros s; cbn [replay].
  - exists []. reflexivity.
  - destruct (IH (exec k c s)) as (g1 & ->).
    destruct (acl_exec k c s) as (g2 & -> & _).
    exists (g1 ++ g2). apply app_assoc.
Qed.

(** X2.  The permission list only grows: a grant made once is there after
    every further history.  In every reachable ledger it holds exactly four
    grants for each logged event: a successful call makes four grants and
    logs one event, a reverted call does neither. *)
Theorem grants_accumulate (s : State) :
  reachable s ->
  length (acl s) = (4 * length (events s))%nat /\
  forall h x, In x (acl s) -> In x (acl (replay h s)).
Proof.
  intros Hs. split.
  - induction Hs as [ | k c s Hs IH ]; [ reflexivity | ].
    destruct (acl_exec k c s) as (g & Ha & He).
    rewrite Ha, length_app. lia.
  - intros h x Hx. destruct (acl_replay h s) as (g & ->).
    apply in_or_app. right. exact Hx.
Qed.

Lemma grants_accumulate_witness :
  reachable hurt /\
  length (acl hurt) = 8%nat /\ length (events hurt) = 2%nat /\
  In (FHE.H32 (FHE.asEuint32 1000), alice)
     (acl (replay [(Heal, call 0); (FightMonster, call 90)] hurt)).
Proof.
  assert (Hr : reachable hurt) by (do 2 apply reach_step; apply reach_genesis).
  split; [ exact Hr | ].
  split; [ reflexivity | ]. split; [ reflexivity | ].
  apply (proj2 (grants_accumulate hurt Hr)).
  vm_compute. auto 10.
Defined.

Lemma permitted_exec (g : address) (k : Call) (c : Ctx) (s : State) :
  this c = g ->
  (forall a, joined (getPlayer s a) = true -> permitted g s a) ->
  forall a, joined (getPlayer (exec k c s) a) = true ->
            permitted g (exec k c s) a.
Proof.
  intros Hg IH a.
  destruct (exec_effect k c s)
    as [ k f _ | Hj | r Hj Hv Hr Hvi Hbt | Hj Hv Hbt | Hj Hh ];
    [ apply IH | .. ];
    unfold permitted; rewrite getPlayer_settle, acl_settle;
    (case_decide as Ha;
     [ subst a g; intros _; cbn; auto 10
     | intros Hja; destruct (IH a Hja) as (H1 & H2 & H3 & H4);
       repeat split; apply in_or_app; right; assumption ]).
Qed.

Lemma permitted_replay (g : address) (h : list (Call * Ctx)) (s : State) :
  served_by g h ->
  (forall a, joined (getPlayer s a) = true -> permitted g s a) ->
  forall a, joined (getPlayer (replay h s) a) = true ->
            permitted g (replay h s) a.
Proof.
  intros Hh. revert s.
  induction Hh as [ | [k c] h Hg Hh IH ]; intros s Hs; cbn [replay].
  - exact Hs.
  - apply IH. apply permitted_exec; assumption.
Qed.

(** X3.  After any history served by one deployed contract, whatever
    [getEncryptedBalance] and [getEncryptedHealth] hand out for an identity
    is a ciphertext that this identity and the contract both hold
    permission on. *)
Theorem readers_return_permitted_handles
    (g : address) (h : list (Call * Ctx)) (a : address) :
  served_by g h ->
  let s := replay h genesis in
  (forall b, getEncryptedBalance s a = Ok b ->
     In (FHE.H32 b, a) (acl s) /\ In (FHE.H32 b, g) (acl s)) /\
  (forall b, getEncryptedHealth s a = Ok b ->
     In (FHE.H8 b, a) (acl s) /\ In (FHE.H8 b, g) (acl s)).
Proof.
  intros Hh s.
  assert (Hp : joined (getPlayer s a) = true -> permitted g s a).
  { apply permitted_replay; [ exact Hh | ]. intros b Hb. discriminate Hb. }
  unfold getEncryptedBalance, getEncryptedHealth.
  destruct (joined (getPlayer s a)); cbn [require mbind result_bind];
    [ | split; intros b Hb; discriminate Hb ].
  destruct (Hp eq_refl) as (H1 & H2 & H3 & H4).
  split; intros b Hb; injection Hb as <-; split; assumption.
Qed.

Lemma readers_return_permitted_handles_witness :
  served_by game [(JoinGame, call 0); (FightMonster, call 1); (Heal, call 0)] /\
  exists b,
    getEncryptedBalance
      (replay [(JoinGame, call 0); (FightMonster, call 1); (Heal, call 0)]
         genesis) alice = Ok b /\
    FHE.decrypt32 b = 990 /\
    In (FHE.H32 b, alice)
       (acl (replay [(JoinGame, call 0); (FightMonster, call 1); (Heal, call 0)]
               genesis)).
Proof.
  assert (Hh : served_by game
                 [(JoinGame, call 0); (FightMonster, call 1); (Heal, call 0)])
    by (repeat constructor).
  split; [ exact Hh | ].
  destruct (getEncryptedBalance
              (replay [(JoinGame, call 0); (FightMonster, call 1); (Heal, call 0)]
                 genesis) alice) as [b | f] eqn:Hb;
    [ | vm_compute in Hb; discriminate Hb ].
  exists b. split; [ reflexivity | ]. split.
  - vm_compute in Hb. injection Hb as <-. reflexivity.
  - exact (proj1 (proj1 (readers_return_permitted_handles game _ alice Hh) b Hb)).
Defined.

(** As [reachable_records], with what the guards of the three operations
    establish about the record they rewrite. *)
Lemma reachable_joined_records (P : Player -> Prop) :
  P zeroPlayer ->
  P joinedPlayer ->
  (forall p r, joined p = true -> P p -> 10 <= r <= 100 ->
               victories p + 1 <= max_uint 64 -> battles p + 1 <= max_uint 64 ->
               P (wonPlayer p r)) ->
  (forall p, joined p = true -> P p -> battles p + 1 <= max_uint 64 ->
             P (lostPlayer p)) ->
  (forall p, joined p = true -> P p -> heals p + 1 <= max_uint 64 ->
             P (healedPlayer p)) ->
  forall s, reachable s -> forall a, P (getPlayer s a).
Proof.
  intros H0 HJ HW HL HH s Hs.
  induction Hs as [ | k c s Hs IH ]; intros a.
  - exact H0.
  - destruct (exec_effect k c s)
      as [ k f _ | Hj | r Hj Hv Hr Hvi Hb | Hj Hv Hb | Hj Hh ];
      try apply IH;
      rewrite getPlayer_settle; case_decide; try apply IH.
    + exact HJ.
    + apply HW; try assumption; [ apply IH | ].
      subst r. pose proof (Z.mod_pos_bound (scalar c s) 91 ltac:(lia)).
      unfold REWARD_SPREAD, MIN_REWARD. lia.
    + apply HL; [ assumption | apply IH | assumption ].
    + apply HH; [ assumption | apply IH | assumption ].
Qed.

(** Nothing is written to a record before its identity joins. *)
Lemma unjoined_pristine (s : State) (a : address) :
  reachable s -> joined (getPlayer s a) = false -> getPlayer s a = zeroPlayer.
Proof.
  intros Hs. revert a.
  apply (reachable_joined_records
           (fun p => joined p = false -> p = zeroPlayer)); try exact Hs.
  - reflexivity.
  - discriminate.
  - intros p r Hj _ _ _ _ Hj'. cbn in Hj'. congruence.
  - intros p Hj _ _ Hj'. cbn in Hj'. congruence.
  - intros p Hj _ _ Hj'. cbn in Hj'. congruence.
Qed.

Lemma counters_nonneg (s : State) (a : address) :
  reachable s ->
  0 <= battles (getPlayer s a) /\ 0 <= victories (getPlayer s a) /\
  0 <= heals (getPlayer s a).
Proof.
  intros Hs. revert a.
  apply (reachable_records
           (fun p => 0 <= battles p /\ 0 <= victories p /\ 0 <= heals p));
    try exact Hs; cbn; intros; lia.
Qed.

(** The tallies of the event log against the records. *)
Lemma tallies_match (s : State) :
  reachable s ->
  forall a,
    let p := getPlayer s a in
    battles p = tally (is_fight a) (events s) /\
    victories p = tally (is_victory a) (events s) /\
    heals p = tally (is_heal a) (events s) /\
    (if joined p then 1 else 0) = tally (is_join a) (events s).
Proof.
  intros Hs. induction Hs as [ | k c s Hs IH ]; intros a p; subst p.
  - repeat split; reflexivity.
  - destruct (IH a) as (Hb & Hv & Hh & Hj).
    destruct (exec_effect k c s)
      as [ k f _ | Hnj | r Hjo Hw Hr Hvi Hbt | Hjo Hw Hbt | Hjo Hhe ];
      [ repeat split; assumption | .. ];
      rewrite getPlayer_settle, events_settle;
      cbn [tally is_fight is_victory is_heal is_join andb];
      (case_decide as Ha;
       [ subst a; rewrite bool_decide_eq_true_2 by reflexivity
       | rewrite bool_decide_eq_false_2 by exact Ha;
         cbn [andb]; repeat split; assumption ]).
    + pose proof (unjoined_pristine s (msg_sender c) Hs Hnj) as Hz.
      rewrite Hz in Hb, Hv, Hh, Hj. cbn in Hb, Hv, Hh, Hj.
      cbn [joinedPlayer joined battles victories heals].
      repeat split; lia.
    + cbn [wonPlayer joined battles victories heals andb].
      rewrite Hjo in *. repeat split; lia.
    + cbn [lostPlayer joined battles victories heals andb].
      rewrite Hjo in *. repeat split; lia.
    + cbn [healedPlayer joined battles victories heals].
      rewrite Hjo in *. repeat split; lia.
Qed.

(** X4.  The event log is a faithful audit trail: in every reachable ledger
    [PlayerJoined] was logged once for an identity that has joined and
    never for one that has not; what [getPlayerStats] returns for an
    identity are the numbers of its logged fights, of its logged victories
    and of its logged heal attempts; and nothing was logged for an identity
    that has not joined. *)
Theorem stats_match_event_log (s : State) :
  reachable s ->
  forall a,
    tally (is_join a) (events s) = (if hasJoined s a then 1 else 0) /\
    (forall b v h,
       getPlayerStats s a = Ok (b, v, h) ->
       b = tally (is_fight a) (events s) /\
       v = tally (is_victory a) (events s) /\
       h = tally (is_heal a) (events s)) /\
    (hasJoined s a = false ->
       tally (is_fight a) (events s) = 0 /\
       tally (is_heal a) (events s) = 0).
Proof.
  intros Hs a. destruct (tallies_match s Hs a) as (Hb & Hv & Hh & Hj).
  unfold hasJoined, getPlayerStats.
  split; [ symmetry; exact Hj | split ].
  - intros b v h.
    destruct (joined (getPlayer s a)); cbn [require mbind result_bind];
      [ | discriminate ].
    intros Hq. injection Hq as <- <- <-. repeat split; assumption.
  - intros Hnj. rewrite (unjoined_pristine s a Hs Hnj) in Hb, Hh.
    split; symmetry; assumption.
Qed.

Lemma stats_match_event_log_witness :
  reachable hurt /\
  tally (is_join alice) (events hurt) = 1 /\
  tally (is_fight alice) (events hurt) = 1 /\
  tally (is_victory alice) (events hurt) = 0 /\
  tally (is_fight bob) (events hurt) = 0.
Proof.
  assert (Hr : reachable hurt) by (do 2 apply reach_step; apply reach_genesis).
  split; [ exact Hr | ].
  destruct (stats_match_event_log hurt Hr alice) as (Hj & Hst & _).
  destruct (stats_match_event_log hurt Hr bob) as (_ & _ & Hbob).
  split; [ exact Hj | ].
  destruct (Hst 1 0 0 eq_refl) as (Hf & Hv & _).
  split; [ symmetry; exact Hf | ].
  split; [ symmetry; exact Hv | ].
  exact (proj1 (Hbob eq_refl)).
Defined.

(** X5.  Every event of a reachable log is well formed: a [MonsterFought]
    with the victory flag carries a reward from 10 to 100, one without it
    carries 0, and a [HealUsed] carries a total from 1 to 2^64 - 1. *)
Theorem logged_events_sound (s : State) :
  reachable s -> Forall sound_event (events s).
Proof.
  intros Hs. induction Hs as [ | k c s Hs IH ]; [ constructor | ].
  destruct (exec_effect k c s)
    as [ k f _ | Hnj | r Hjo Hw Hr Hvi Hbt | Hjo Hw Hbt | Hjo Hhe ];
    [ exact IH | .. ];
    rewrite events_settle; constructor; try exact IH; cbn [sound_event].
  - exact I.
  - subst r. pose proof (Z.mod_pos_bound (scalar c s) 91 ltac:(lia)).
    unfold REWARD_SPREAD, MIN_REWARD. lia.
  - reflexivity.
  - destruct (counters_nonneg s (msg_sender c) Hs) as (_ & _ & Hh). lia.
Qed.

Lemma logged_events_sound_witness :
  reachable (exec FightMonster (call 90) hurt) /\
  Forall sound_event
    [ MonsterFought alice true 100; MonsterFought alice false 0;
      PlayerJoined alice ].
Proof.
  assert (Hr : reachable (exec FightMonster (call 90) hurt))
    by (do 3 apply reach_step; apply reach_genesis).
  split; [ exact Hr | ].
  exact (logged_events_sound _ Hr).
Defined.

(** X6.  Progress is never reset.  In a reachable ledger the record of an
    identity that has not joined is still the all-zero record, so the
    zeroing in [joinGame] discards nothing; and no call ever lowers a
    [battles], [victories] or [heals] counter. *)
Theorem progress_never_resets (s : State) :
  reachable s ->
  forall a,
    (hasJoined s a = false -> getPlayer s a = zeroPlayer) /\
    forall k c,
      battles (getPlayer s a) <= battles (getPlayer (exec k c s) a) /\
      victories (getPlayer s a) <= victories (getPlayer (exec k c s) a) /\
      heals (getPlayer s a) <= heals (getPlayer (exec k c s) a).
Proof.
  intros Hs a. split; [ apply unjoined_pristine; exact Hs | ].
  intros k c.
  destruct (exec_effect k c s)
    as [ k f _ | Hnj | r Hjo Hw Hr Hvi Hbt | Hjo Hw Hbt | Hjo Hhe ];
    [ lia | .. ];
    rewrite getPlayer_settle; (case_decide as Ha; [ subst a | lia ]).
  - rewrite (unjoined_pristine s (msg_sender c) Hs Hnj). cbn. lia.
  - cbn. lia.
  - cbn. lia.
  - cbn. lia.
Qed.

Lemma progress_never_resets_witness :
  reachable hurt /\
  battles (getPlayer hurt alice)
  <= battles (getPlayer (exec JoinGame (call 0) hurt) alice).
Proof.
  assert (Hr : reachable hurt) by (do 2 apply reach_step; apply reach_genesis).
  split; [ exact Hr | ].
  exact (proj1 (proj2 (progress_never_resets hurt Hr alice) JoinGame (call 0))).
Defined.

(** ** Balance and health against the counters *)

Lemma balance_window (s : State) (a : address) :
  reachable s ->
  let p := getPlayer s a in
  0 <= victories p /\ 0 <= heals p /\
  (joined p = true -> victories p <= WRAP_FREE_VICTORIES ->
   1000 + 10 * victories p - 10 * heals p <= FHE.decrypt32 (balance p)
   /\ FHE.decrypt32 (balance p) <= 1000 + 100 * victories p).
Proof.
  intros Hs. revert a.
  apply (reachable_joined_records
           (fun p =>
              0 <= victories p /\ 0 <= heals p /\
              (joined p = true -> victories p <= WRAP_FREE_VICTORIES ->
               1000 + 10 * victories p - 10 * heals p
               <= FHE.decrypt32 (balance p)
               /\ FHE.decrypt32 (balance p) <= 1000 + 100 * victories p)));
    try exact Hs; unfold WRAP_FREE_VICTORIES.
  - cbn. repeat split; try lia; discriminate.
  - change (FHE.decrypt32 (balance joinedPlayer)) with 1000. cbn. lia.
  - intros p r Hj (Hv & Hh & Hw) Hr _ _.
    unfold wonPlayer; cbn [victories heals joined balance FHE.decrypt32].
    split; [ lia | ]. split; [ lia | ]. intros _ Hle.
    destruct (Hw Hj ltac:(lia)) as (Hlo & Hhi).
    pose proof (decrypt32_range (balance p)) as Hb.
    change (2 ^ 32) with 4294967296 in *.
    rewrite (Z.mod_small r 4294967296) by lia.
    rewrite Z.mod_small by lia. lia.
  - intros p Hj (Hv & Hh & Hw) _.
    unfold lostPlayer; cbn [victories heals joined balance].
    split; [ lia | ]. split; [ lia | ]. intros _ Hle. apply Hw; assumption.
  - intros p Hj (Hv & Hh & Hw) _.
    unfold healedPlayer; cbn [victories heals joined balance].
    split; [ lia | ]. split; [ lia | ]. intros _ Hle.
    destruct (Hw Hj Hle) as (Hlo & Hhi).
    rewrite heal_balance_decrypt. unfold canHeal_clear.
    destruct (FHE.decrypt8 (health p) <? 10); cbn [andb]; [ | lia ].
    destruct (Z.leb_spec 10 (FHE.decrypt32 (balance p))); lia.
Qed.

(** X7.  While an identity has won at most 42,949,662 fights its balance
    has not wrapped and is pinned by its public counters: it decodes to at
    least [1000 + 10 * victories - 10 * heals] and to at most
    [1000 + 100 * victories]. *)
Theorem balance_within_counters (s : State) (a : address) :
  reachable s ->
  hasJoined s a = true ->
  victories (getPlayer s a) <= WRAP_FREE_VICTORIES ->
  1000 + 10 * victories (getPlayer s a) - 10 * heals (getPlayer s a)
  <= coins s a
  <= 1000 + 100 * victories (getPlayer s a).
Proof.
  intros Hs Hj Hv. apply (balance_window s a Hs); assumption.
Qed.

Lemma balance_within_counters_witness :
  reachable (exec Heal (call 0) hurt) /\
  hasJoined (exec Heal (call 0) hurt) alice = true /\
  victories (getPlayer (exec Heal (call 0) hurt) alice) <= WRAP_FREE_VICTORIES /\
  990 <= coins (exec Heal (call 0) hurt) alice <= 1000.
Proof.
  assert (Hr : reachable (exec Heal (call 0) hurt))
    by (do 3 apply reach_step; apply reach_genesis).
  assert (Hj : hasJoined (exec Heal (call 0) hurt) alice = true) by reflexivity.
  assert (Hv : victories (getPlayer (exec Heal (call 0) hurt) alice)
               <= WRAP_FREE_VICTORIES) by (vm_compute; discriminate).
  split; [ exact Hr | ]. split; [ exact Hj | ]. split; [ exact Hv | ].
  exact (balance_within_counters _ alice Hr Hj Hv).
Defined.

Lemma hp_at_most_ten (s : State) (a : address) :
  reachable s -> hp s a <= 10.
Proof.
  intros Hs. unfold hp. revert a.
  apply (reachable_records (fun p => FHE.decrypt8 (health p) <= 10));
    try exact Hs.
  - change (FHE.decrypt8 (health zeroPlayer)) with 0. lia.
  - change (FHE.decrypt8 (health joinedPlayer)) with 10. lia.
  - intros p r Hp _. exact Hp.
  - intros p Hp. unfold lostPlayer; cbn [health].
    rewrite reduceHealth_decrypt. lia.
  - intros p Hp. unfold healedPlayer; cbn [health].
    rewrite heal_health_decrypt. destruct (canHeal_clear _ _); lia.
Qed.

(** X8.  A joined identity has lost at most one health point per defeat:
    its health decodes to at least [10 - (battles - victories)], so an
    identity that never lost is at full health. *)
Theorem health_lost_only_in_defeats (s : State) (a : address) :
  reachable s ->
  hasJoined s a = true ->
  10 - (battles (getPlayer s a) - victories (getPlayer s a)) <= hp s a /\
  (battles (getPlayer s a) = victories (getPlayer s a) -> hp s a = 10).
Proof.
  intros Hs Hj.
  assert (Hlo : 10 - (battles (getPlayer s a) - victories (getPlayer s a))
                <= hp s a).
  { revert Hj. unfold hasJoined, hp.
    enough (Hboth : victories (getPlayer s a) <= battles (getPlayer s a) /\
                    (joined (getPlayer s a) = true ->
                     10 - (battles (getPlayer s a) - victories (getPlayer s a))
                     <= FHE.decrypt8 (health (getPlayer s a))))
      by apply Hboth.
    revert a.
    apply (reachable_joined_records
             (fun p => victories p <= battles p /\
                       (joined p = true ->
                        10 - (battles p - victories p)
                        <= FHE.decrypt8 (health p)))); try exact Hs.
    - split; [ reflexivity | discriminate ].
    - split; [ reflexivity | ]. intros _.
      change (FHE.decrypt8 (health joinedPlayer)) with 10. cbn. lia.
    - intros p r Hj (Hvb & Hp) _ _ _. specialize (Hp Hj).
      unfold wonPlayer; cbn [battles victories health]. lia.
    - intros p Hj (Hvb & Hp) _. specialize (Hp Hj).
      unfold lostPlayer; cbn [battles victories health].
      rewrite reduceHealth_decrypt. lia.
    - intros p Hj (Hvb & Hp) _. specialize (Hp Hj).
      unfold healedPlayer; cbn [battles victories health].
      rewrite heal_health_decrypt.
      destruct (canHeal_clear _ _); lia. }
  split; [ exact Hlo | ].
  intros He. pose proof (hp_at_most_ten s a Hs). lia.
Qed.

Lemma health_lost_only_in_defeats_witness :
  reachable hurt /\ hasJoined hurt alice = true /\ 9 <= hp hurt alice.
Proof.
  assert (Hr : reachable hurt) by (do 2 apply reach_step; apply reach_genesis).
  assert (Hj : hasJoined hurt alice = true) by reflexivity.
  split; [ exact Hr | ]. split; [ exact Hj | ].
  exact (proj1 (health_lost_only_in_defeats hurt alice Hr Hj)).
Defined.

(** ** The two health helpers *)

(** X9.  [_reduceHealth] is a saturating subtraction for every damage, not
    only for [DAMAGE]: the result decodes to [max 0 (health - damage)], so
    it never wraps below zero and never exceeds the health it started
    from. *)
Theorem reduceHealth_saturates (h d : FHE.euint8) :
  FHE.decrypt8 (_reduceHealth h d)
  = Z.max 0 (FHE.decrypt8 h - FHE.decrypt8 d) /\
  0 <= FHE.decrypt8 (_reduceHealth h d) <= FHE.decrypt8 h.
Proof.
  pose proof (decrypt8_range h) as Hh.
  pose proof (decrypt8_range d) as Hd.
  unfold _reduceHealth. cbn [FHE.decrypt8 FHE.decryptBool].
  change (0 mod 2 ^ 8) with 0.
  destruct (Z.leb_spec (FHE.decrypt8 h) (FHE.decrypt8 d)); [ lia | ].
  rewrite Z.mod_small by lia. lia.
Qed.

(** X10.  [_clampHealth] caps at [MAX_HEALTH]: the result decodes to at
    most 10, a health of at most 10 passes unchanged, and clamping twice
    is clamping once. *)
Theorem clampHealth_caps (h : FHE.euint8) :
  0 <= FHE.decrypt8 (_clampHealth h) <= 10 /\
  (FHE.decrypt8 h <= 10 -> FHE.decrypt8 (_clampHealth h) = FHE.decrypt8 h) /\
  FHE.decrypt8 (_clampHealth (_clampHealth h)) = FHE.decrypt8 (_clampHealth h).
Proof.
  pose proof (decrypt8_range h) as Hh.
  rewrite !clampHealth_decrypt. unfold MAX_HEALTH. lia.
Qed.

(** X11.  Inside [heal] the clamp never decides anything: with or without
    [_clampHealth] the selected health decodes to the same value, one more
    than before when [canHeal] holds and the old value otherwise.  (When
    the health is 255 the tentative [health + 1] wraps to 0, and is not
    selected.) *)
Theorem heal_clamp_is_redundant (b : FHE.euint32) (h : FHE.euint8) :
  let canHeal :=
    FHE.and (FHE.lt8 h (FHE.asEuint8 MAX_HEALTH))
      (FHE.ge32 b (FHE.asEuint32 HEAL_COST)) in
  FHE.decrypt8
    (FHE.select8 canHeal (_clampHealth (FHE.add8 h (FHE.asEuint8 1))) h)
  = FHE.decrypt8 (FHE.select8 canHeal (FHE.add8 h (FHE.asEuint8 1)) h) /\
  FHE.decrypt8
    (FHE.select8 canHeal (_clampHealth (FHE.add8 h (FHE.asEuint8 1))) h)
  = if FHE.decryptBool canHeal then FHE.decrypt8 h + 1 else FHE.decrypt8 h.
Proof.
  intros canHeal. subst canHeal.
  pose proof (decrypt8_range h) as Hh.
  cbn [FHE.decrypt8]. rewrite canHeal_decrypt, clampHealth_decrypt.
  unfold canHeal_clear.
  destruct (Z.ltb_spec (FHE.decrypt8 h) 10); cbn [andb];
    [ | split; reflexivity ].
  destruct (10 <=? FHE.decrypt32 b); [ | split; reflexivity ].
  cbn [FHE.decrypt8]. change (1 mod 2 ^ 8) with 1.
  rewrite Z.mod_small by lia. unfold MAX_HEALTH. lia.
Qed.

(** ** Rewards *)

Lemma scalar_constant (a g : address) (d : Z) (s : State) :
  0 <= d < 182 -> scalar (mkCtx a g (fun _ _ => d)) s = d.
Proof.
  intros Hd. unfold scalar, _random; cbn [block_digest msg_sender].
  apply Z.mod_small. split; [ lia | ].
  apply Z.lt_trans with 182; [ lia | reflexivity ].
Qed.

(** X12.  The reward range is tight: for a joined caller with room in its
    counters and every [r] from 10 to 100 there is a block digest below
    182 with which [fightMonster] is a victory that logs exactly the
    reward [r] and credits it. *)
Theorem every_reward_is_attainable (r : Z) (a g : address) (s : State) :
  10 <= r <= 100 ->
  joined (getPlayer s a) = true ->
  victories (getPlayer s a) < max_uint 64 ->
  battles (getPlayer s a) < max_uint 64 ->
  exists d s',
    0 <= d < 182 /\
    fightMonster (mkCtx a g (fun _ _ => d)) s = Ok s' /\
    events s' = MonsterFought a true r :: events s /\
    coins s' a = (coins s a + r) mod 2 ^ 32.
Proof.
  intros Hr Hj Hv Hb.
  set (d := if Z.even (r - 10) then r - 10 else r - 10 + 91).
  assert (Hd : 0 <= d < 182) by (subst d; destruct (Z.even (r - 10)); lia).
  assert (Hpar : d mod 2 = 0).
  { rewrite Zmod_even. subst d. destruct (Z.even (r - 10)) eqn:He.
    - rewrite He. reflexivity.
    - rewrite Z.even_add, He. reflexivity. }
  assert (Hrew : d mod REWARD_SPREAD + MIN_REWARD = r).
  { unfold REWARD_SPREAD, MIN_REWARD. subst d.
    destruct (Z.even (r - 10)).
    - rewrite Z.mod_small by lia. lia.
    - replace (r - 10 + 91) with (r - 10 + 1 * 91) by lia.
      rewrite Z.mod_add by lia. rewrite Z.mod_small by lia. lia. }
  exists d. eexists. split; [ exact Hd | ].
  split.
  - apply fightMonster_won; cbn [msg_sender]; try assumption.
    unfold victorious. rewrite scalar_constant by exact Hd.
    rewrite Hpar. reflexivity.
  - rewrite scalar_constant by exact Hd. rewrite Hrew.
    rewrite events_settle. split; [ reflexivity | ].
    unfold coins. cbn [msg_sender].
    change a with (msg_sender (mkCtx a g (fun _ _ => d))) at 1.
    rewrite getPlayer_settle_eq.
    unfold wonPlayer; cbn [balance FHE.decrypt32 msg_sender].
    change (2 ^ 32) with 4294967296.
    rewrite (Z.mod_small r 4294967296) by lia. reflexivity.
Qed.

Lemma every_reward_is_attainable_witness :
  10 <= 57 <= 100 /\
  joined (getPlayer fresh alice) = true /\
  exists d s',
    0 <= d < 182 /\
    fightMonster (mkCtx alice game (fun _ _ => d)) fresh = Ok s' /\
    events s' = MonsterFought alice true 57 :: events fresh.
Proof.
  assert (Hr : 10 <= 57 <= 100) by lia.
  assert (Hj : joined (getPlayer fresh alice) = true) by reflexivity.
  split; [ exact Hr | ]. split; [ exact Hj | ].
  destruct (every_reward_is_attainable 57 alice game fresh Hr Hj)
    as (d & s' & Hd & Hrun & Hev & _);
    [ reflexivity | reflexivity | ].
  exists d, s'. split; [ exact Hd | ]. split; [ exact Hrun | exact Hev ].
Defined.

(** ** Calls in sequence *)

(** X13.  The first fight after joining, as the test suite checks it, for
    every digest: the statistics read (1, victories, 0), and either it was
    a victory, the balance decodes to between 1010 and 1100 and the health
    to 10, or it was a defeat, the balance decodes to 1000 and the health
    to 9. *)
Theorem first_fight_after_join (c1 c2 : Ctx) (s : State) :
  hasJoined s (msg_sender c1) = false ->
  msg_sender c2 = msg_sender c1 ->
  let a := msg_sender c1 in
  let s2 := exec FightMonster c2 (exec JoinGame c1 s) in
  (getPlayerStats s2 a = Ok (1, 1, 0) /\
   1010 <= coins s2 a <= 1100 /\ hp s2 a = 10) \/
  (getPlayerStats s2 a = Ok (1, 0, 0) /\ coins s2 a = 1000 /\ hp s2 a = 9).
Proof.
  intros Hnj Hsame a s2. unfold hasJoined in Hnj.
  set (s1 := settle c1 joinedPlayer (PlayerJoined (msg_sender c1)) s).
  assert (H1 : exec JoinGame c1 s = s1)
    by (unfold exec; cbn [run]; rewrite joinGame_eq, Hnj; reflexivity).
  assert (Hp1 : getPlayer s1 (msg_sender c2) = joinedPlayer)
    by (rewrite Hsame; apply getPlayer_settle_eq).
  subst s2. rewrite H1. subst a. rewrite <- Hsame.
  unfold exec; cbn [run].
  destruct (victorious c2 s1) eqn:Hv.
  - left.
    rewrite fightMonster_won
      by (rewrite ?Hp1; first [ exact Hv | reflexivity ]).
    unfold getPlayerStats, coins, hp. rewrite getPlayer_settle_eq, Hp1.
    pose proof (Z.mod_pos_bound (scalar c2 s1) 91 ltac:(lia)) as Hm.
    unfold wonPlayer, REWARD_SPREAD, MIN_REWARD.
    cbn [joined battles victories heals balance health joinedPlayer
         require mbind result_bind FHE.decrypt32].
    change (STARTING_COINS mod 2 ^ 32) with 1000.
    change (FHE.decrypt8 (FHE.asEuint8 MAX_HEALTH)) with 10.
    change (2 ^ 32) with 4294967296.
    rewrite (Z.mod_small (scalar c2 s1 mod 91 + 10)) by lia.
    rewrite Z.mod_small by lia.
    repeat split; lia.
  - right.
    rewrite fightMonster_lost
      by (rewrite ?Hp1; first [ exact Hv | reflexivity ]).
    unfold getPlayerStats, coins, hp. rewrite getPlayer_settle_eq, Hp1.
    repeat split; reflexivity.
Qed.

Lemma first_fight_after_join_witness :
  hasJoined genesis alice = false /\
  getPlayerStats (exec FightMonster (call 7) (exec JoinGame (call 0) genesis))
    alice = Ok (1, 0, 0).
Proof.
  assert (Hnj : hasJoined genesis (msg_sender (call 0)) = false) by reflexivity.
  split; [ exact Hnj | ].
  destruct (first_fight_after_join (call 0) (call 7) genesis Hnj eq_refl)
    as [ (Hst & _) | (Hst & _) ]; [ | exact Hst ].
  vm_compute in Hst. discriminate Hst.
Defined.

(** X14.  Healing is affordable for a long while: a joined caller with at
    most 42,949,662 victories and at most [victories + 99] heal attempts
    behind it holds at least 10 coins, so whenever its health is below 10
    a [heal] succeeds, costs exactly 10 coins and restores exactly one
    point. *)
Theorem heal_is_affordable (c : Ctx) (s : State) :
  reachable s ->
  let a := msg_sender c in
  hasJoined s a = true ->
  victories (getPlayer s a) <= WRAP_FREE_VICTORIES ->
  heals (getPlayer s a) <= victories (getPlayer s a) + 99 ->
  hp s a < 10 ->
  exists s',
    heal c s = Ok s' /\
    coins s' a = coins s a - 10 /\ hp s' a = hp s a + 1 /\
    heals (getPlayer s' a) = heals (getPlayer s a) + 1.
Proof.
  intros Hs a Hj Hv Hh Hhp. subst a. unfold hasJoined in Hj.
  destruct (balance_window s (msg_sender c) Hs) as (_ & _ & Hw).
  destruct (Hw Hj Hv) as (Hlo & _).
  eexists. split.
  - apply heal_Ok; [ exact Hj | ].
    unfold WRAP_FREE_VICTORIES, max_uint in *. lia.
  - unfold coins, hp in *. rewrite getPlayer_settle_eq.
    unfold healedPlayer; cbn [balance health heals].
    rewrite heal_balance_decrypt, heal_health_decrypt. unfold canHeal_clear.
    destruct (Z.ltb_spec (FHE.decrypt8 (health (getPlayer s (msg_sender c)))) 10);
      [ | lia ].
    destruct (Z.leb_spec 10
                (FHE.decrypt32 (balance (getPlayer s (msg_sender c)))));
      [ | lia ].
    cbn [andb]. repeat split; lia.
Qed.

Lemma heal_is_affordable_witness :
  reachable hurt /\ hasJoined hurt alice = true /\ hp hurt alice < 10 /\
  exists s',
    heal (call 0) hurt = Ok s' /\
    coins s' alice = coins hurt alice - 10 /\
    hp s' alice = hp hurt alice + 1 /\
    heals (getPlayer s' alice) = heals (getPlayer hurt alice) + 1.
Proof.
  assert (Hr : reachable hurt) by (do 2 apply reach_step; apply reach_genesis).
  assert (Hj : hasJoined hurt (msg_sender (call 0)) = true) by reflexivity.
  assert (Hhp : hp hurt (msg_sender (call 0)) < 10) by reflexivity.
  split; [ exact Hr | ]. split; [ exact Hj | ]. split; [ exact Hhp | ].
  apply (heal_is_affordable (call 0) hurt Hr Hj);
    [ vm_compute; discriminate | vm_compute; discriminate | exact Hhp ].
Defined.

(** X15.  A defeat followed by a heal of the same caller is undone at the
    price of the heal: for a joined caller with room in its counters, a
    health from 1 to 10 and at least 10 coins, after a lost [fightMonster]
    and a [heal] the health decodes to what it was and the balance to 10
    less. *)
Theorem heal_undoes_a_defeat (c1 c2 : Ctx) (s : State) :
  msg_sender c2 = msg_sender c1 ->
  let a := msg_sender c1 in
  joined (getPlayer s a) = true ->
  battles (getPlayer s a) < max_uint 64 ->
  heals (getPlayer s a) < max_uint 64 ->
  victorious c1 s = false ->
  1 <= hp s a <= 10 ->
  10 <= coins s a ->
  let s2 := exec Heal c2 (exec FightMonster c1 s) in
  hp s2 a = hp s a /\ coins s2 a = coins s a - 10 /\
  battles (getPlayer s2 a) = battles (getPlayer s a) + 1 /\
  heals (getPlayer s2 a) = heals (getPlayer s a) + 1.
Proof.
  intros Hsame a Hj Hb Hh Hv Hhp Hco s2. subst a. unfold coins, hp in Hhp, Hco.
  set (p := getPlayer s (msg_sender c1)) in *.
  set (s1 := settle c1 (lostPlayer p) (MonsterFought (msg_sender c1) false 0) s).
  assert (H1 : exec FightMonster c1 s = s1)
    by (unfold exec; cbn [run]; rewrite fightMonster_lost by assumption;
        reflexivity).
  assert (Hp1 : getPlayer s1 (msg_sender c2) = lostPlayer p)
    by (rewrite Hsame; apply getPlayer_settle_eq).
  subst s2. rewrite H1.
  unfold exec; cbn [run].
  rewrite heal_Ok by (rewrite Hp1; cbn; assumption).
  unfold coins, hp in *. rewrite getPlayer_settle, Hp1.
  case_decide; [ | congruence ].
  unfold healedPlayer; cbn [balance health battles heals].
  rewrite heal_balance_decrypt, heal_health_decrypt.
  unfold lostPlayer; cbn [balance health battles heals].
  rewrite reduceHealth_decrypt. unfold canHeal_clear.
  destruct (Z.ltb_spec (Z.max 0 (FHE.decrypt8 (health p) - 1)) 10); [ | lia ].
  destruct (Z.leb_spec 10 (FHE.decrypt32 (balance p))); [ | lia ].
  cbn [andb]. subst p. repeat split; lia.
Qed.

Lemma heal_undoes_a_defeat_witness :
  hp (exec Heal (call 0) (exec FightMonster (call 1) fresh)) alice
  = hp fresh alice /\
  coins (exec Heal (call 0) (exec FightMonster (call 1) fresh)) alice
  = coins fresh alice - 10.
Proof.
  destruct (heal_undoes_a_defeat (call 1) (call 0) fresh eq_refl)
    as (Hhp & Hco & _);
    try reflexivity; try (vm_compute; split; discriminate);
    try (vm_compute; discriminate).
  split; [ exact Hhp | exact Hco ].
Defined.

(** ** The front end *)

Lemma foreign_logs_keep (logs : list (option Event)) (message : string) :
  Forall (eq None) logs -> foldl logMessage message logs = message.
Proof.
  intros Hl. induction Hl as [ | log logs <- _ IH ]; [ reflexivity | exact IH ].
Qed.

Lemma receiptMessage_single (pre post : list (option Event)) (e : Event) :
  Forall (eq None) pre -> Forall (eq None) post ->
  receiptMessage (pre ++ Some e :: post) = logMessage "" (Some e).
Proof.
  intros Hpre Hpost. unfold receiptMessage.
  rewrite foldl_app, (foreign_logs_keep pre) by exact Hpre.
  cbn [foldl]. apply foreign_logs_keep. exact Hpost.
Qed.

(** X16.  What the front end shows for the receipt of a successful call,
    whatever logs of other contracts surround the call's event: after
    [joinGame] the status note is left as it was; after [fightMonster] it
    announces the victory with the reward [scalar mod 91 + 10] when the
    scalar is even and the defeat otherwise; after [heal] it shows the
    caller's new [heals] counter. *)
Theorem parseReceipt_of_call
    (k : Call) (c : Ctx) (s s' : State) (statusNote : string)
    (pre post : list (option Event)) :
  run k c s = Ok s' ->
  Forall (eq None) pre -> Forall (eq None) post ->
  exists e,
    events s' = e :: events s /\
    parseReceipt statusNote (pre ++ Some e :: post)
    = match k with
      | JoinGame => statusNote
      | FightMonster =>
          if Z.even (scalar c s)
          then "Victory! Looted " +:+ pretty (scalar c s mod 91 + 10)
               +:+ " coins."
          else "Defeat. You took 1 damage."
      | Heal =>
          "Heal attempt recorded ("
          +:+ pretty (heals (getPlayer s' (msg_sender c))) +:+ ")"
      end.
Proof.
  intros Hrun Hpre Hpost. unfold parseReceipt.
  destruct k; cbn [run] in Hrun.
  - rewrite joinGame_eq in Hrun.
    destruct (joined (getPlayer s (msg_sender c))); [ discriminate | ].
    injection Hrun as <-. eexists. split; [ apply events_settle | ].
    rewrite receiptMessage_single by assumption. reflexivity.
  - rewrite fightMonster_eq in Hrun; cbv zeta in Hrun.
    rewrite <- victorious_even.
    destruct (negb _); [ discriminate | ].
    destruct (victorious c s).
    + destruct (_ && _); [ | discriminate ].
      injection Hrun as <-. eexists. split; [ apply events_settle | ].
      rewrite receiptMessage_single by assumption. reflexivity.
    + destruct (_ <=? _); [ | discriminate ].
      injection Hrun as <-. eexists. split; [ apply events_settle | ].
      rewrite receiptMessage_single by assumption. reflexivity.
  - rewrite heal_eq in Hrun; cbv zeta in Hrun.
    destruct (negb _); [ discriminate | ].
    destruct (_ <=? _); [ | discriminate ].
    injection Hrun as <-. eexists. split; [ apply events_settle | ].
    rewrite receiptMessage_single by assumption.
    rewrite getPlayer_settle_eq. reflexivity.
Qed.

Lemma parseReceipt_of_call_witness :
  exists s' e,
    run FightMonster (call 90) fresh = Ok s' /\
    events s' = e :: events fresh /\
    parseReceipt "Battling monster..." [None; Some e; None; None]
    = "Victory! Looted 100 coins.".
Proof.
  destruct (run FightMonster (call 90) fresh) as [s' | f] eqn:Hrun;
    [ | vm_compute in Hrun; discriminate Hrun ].
  destruct (parseReceipt_of_call FightMonster (call 90) fresh s'
              "Battling monster..." [None] [None; None] Hrun)
    as (e & Hev & Hmsg); [ repeat constructor | repeat constructor | ].
  exists s', e. split; [ reflexivity | ]. split; [ exact Hev | exact Hmsg ].
Defined.

(** X17.  The defeat notice and the ledger: after a lost [fightMonster] of
    a joined caller the front end reports one point of damage, which is
    what the health lost exactly when it decoded to at least 1; at health
    0 the notice is the same and the health stays 0. *)
Theorem defeat_notice_vs_damage (c : Ctx) (s : State) (statusNote : string) :
  joined (getPlayer s (msg_sender c)) = true ->
  battles (getPlayer s (msg_sender c)) < max_uint 64 ->
  victorious c s = false ->
  exists s' e,
    fightMonster c s = Ok s' /\
    events s' = e :: events s /\
    parseReceipt statusNote [Some e] = "Defeat. You took 1 damage." /\
    (hp s (msg_sender c) - hp s' (msg_sender c) = 1 <-> 1 <= hp s (msg_sender c)) /\
    (hp s (msg_sender c) = 0 -> hp s' (msg_sender c) = 0).
Proof.
  intros Hj Hb Hv. eexists _, _.
  split; [ apply fightMonster_lost; assumption | ].
  split; [ apply events_settle | ].
  split; [ reflexivity | ].
  unfold hp. rewrite getPlayer_settle_eq.
  pose proof (decrypt8_range (health (getPlayer s (msg_sender c)))) as Hr.
  unfold lostPlayer; cbn [health]. rewrite reduceHealth_decrypt. lia.
Qed.

Lemma defeat_notice_vs_damage_witness :
  exists s' e,
    fightMonster (call 1) (ledger_of veteran_at_zero) = Ok s' /\
    events s' = e :: events (ledger_of veteran_at_zero) /\
    parseReceipt "Battling monster..." [Some e] = "Defeat. You took 1 damage." /\
    hp (ledger_of veteran_at_zero) alice = 0 /\ hp s' alice = 0.
Proof.
  destruct (defeat_notice_vs_damage (call 1) (ledger_of veteran_at_zero)
              "Battling monster...")
    as (s' & e & Hrun & Hev & Hmsg & _ & Hzero);
    [ reflexivity | reflexivity | reflexivity | ].
  exists s', e. split; [ exact Hrun | ]. split; [ exact Hev | ].
  split; [ exact Hmsg | ]. split; [ reflexivity | ].
  apply Hzero. reflexivity.
Defined.

(** ** The fight counters *)

(** C9, as the contract has it.  In every reachable ledger every record has
    [victories <= battles].  Both counters are 0 for an identity that has
    not joined, and no [joinGame] or [heal] changes either of them in any
    record.  A [fightMonster] by a joined caller whose [battles] is below
    2^64 - 1 succeeds, adds exactly 1 to the caller's [battles], adds 1 to
    its [victories] when the scalar is even and nothing otherwise, and
    leaves both counters of every other record alone; a [fightMonster] by
    a caller that has not joined, or whose [battles] is 2^64 - 1, reverts
    and changes nothing. *)
Theorem victories_track_battles (s : State) :
  reachable s ->
  (forall a, 0 <= victories (getPlayer s a) <= battles (getPlayer s a)) /\
  (forall a, hasJoined s a = false ->
     battles (getPlayer s a) = 0 /\ victories (getPlayer s a) = 0) /\
  (forall k c a, k <> FightMonster ->
     battles (getPlayer (exec k c s) a) = battles (getPlayer s a) /\
     victories (getPlayer (exec k c s) a) = victories (getPlayer s a)) /\
  (forall c,
     joined (getPlayer s (msg_sender c)) = true ->
     battles (getPlayer s (msg_sender c)) < max_uint 64 ->
     exists s',
       fightMonster c s = Ok s' /\
       battles (getPlayer s' (msg_sender c))
       = battles (getPlayer s (msg_sender c)) + 1 /\
       victories (getPlayer s' (msg_sender c))
       = victories (getPlayer s (msg_sender c))
         + (if Z.even (scalar c s) then 1 else 0) /\
       forall b, b <> msg_sender c ->
         battles (getPlayer s' b) = battles (getPlayer s b) /\
         victories (getPlayer s' b) = victories (getPlayer s b)) /\
  (forall c,
     joined (getPlayer s (msg_sender c)) = false \/
     max_uint 64 <= battles (getPlayer s (msg_sender c)) ->
     (exists f, fightMonster c s = Revert f) /\ exec FightMonster c s = s).
Proof.
  intros Hs.
  split; [ intros a; apply victories_bounded_by_battles; exact Hs | ].
  split; [ | split; [ | split ] ].
  - intros a Hnj. rewrite (unjoined_pristine s a Hs Hnj). split; reflexivity.
  - intros k c a Hk. revert Hk.
    destruct (exec_effect k c s)
      as [ k f _ | Hnj | r Hj Hv Hr Hvi Hb | Hj Hv Hb | Hj Hh ];
      intros Hk; try congruence; [ split; reflexivity | | ];
      rewrite getPlayer_settle;
      (case_decide as Ha; [ subst a | split; reflexivity ]).
    + rewrite (unjoined_pristine s (msg_sender c) Hs Hnj). split; reflexivity.
    + split; reflexivity.
  - intros c Hj Hb.
    pose proof (victories_bounded_by_battles s (msg_sender c) Hs) as Hvb.
    rewrite <- victorious_even.
    destruct (victorious c s) eqn:Hv.
    + eexists. split; [ apply fightMonster_won; (assumption || lia) | ].
      rewrite getPlayer_settle_eq. split; [ reflexivity | ].
      split; [ reflexivity | ].
      intros b Hne. rewrite getPlayer_settle.
      case_decide; [ congruence | split; reflexivity ].
    + eexists. split; [ apply fightMonster_lost; assumption | ].
      rewrite getPlayer_settle_eq. split; [ reflexivity | ].
      split; [ cbn; lia | ].
      intros b Hne. rewrite getPlayer_settle.
      case_decide; [ congruence | split; reflexivity ].
  - intros c Hc.
    assert (Hrev : exists f, fightMonster c s = Revert f).
    { destruct (joined (getPlayer s (msg_sender c))) eqn:Hj.
      - destruct Hc as [ Hc | Hc ]; [ discriminate Hc | ].
        eexists. apply fightMonster_Panic; assumption.
      - eexists. rewrite fightMonster_eq; cbv zeta. rewrite Hj. reflexivity. }
    split; [ exact Hrev | ].
    destruct Hrev as (f & Hf). unfold exec; cbn [run]. rewrite Hf. reflexivity.
Qed.

Lemma victories_track_battles_witness :
  reachable fresh /\
  exists s',
    fightMonster (call 90) fresh = Ok s' /\
    battles (getPlayer s' alice) = 1 /\ victories (getPlayer s' alice) = 1.
Proof.
  assert (Hr : reachable fresh) by (apply reach_step, reach_genesis).
  split; [ exact Hr | ].
  destruct (victories_track_battles fresh Hr) as (_ & _ & _ & Hfight & _).
  destruct (Hfight (call 90)) as (s' & Hrun & Hb & Hv & _);
    [ reflexivity | reflexivity | ].
  exists s'. split; [ exact Hrun | ]. split; [ exact Hb | exact Hv ].
Defined.

(** C9 as stated fails in its last clause.  The victorious calls need not be
    a strict subset of the fights: after joining and winning one fight the
    caller has [victories = battles = 1].  And not every call counts: after
    2^64 - 1 fights [battles] is full and the next [fightMonster] of the
    joined caller reverts. *)
Lemma victories_may_equal_battles :
  ~ (forall s a,
       reachable s ->
       0 < battles (getPlayer s a) ->
       victories (getPlayer s a) < battles (getPlayer s a)) /\
  ~ (forall c s,
       reachable s ->
       joined (getPlayer s (msg_sender c)) = true ->
       battles (getPlayer (exec FightMonster c s) (msg_sender c))
       = battles (getPlayer s (msg_sender c)) + 1).
Proof.
  split; intros H.
  - specialize (H (exec FightMonster (call 90) fresh) alice).
    assert (Hr : reachable (exec FightMonster (call 90) fresh))
      by (do 2 apply reach_step; apply reach_genesis).
    specialize (H Hr eq_refl). vm_compute in H. discriminate H.
  - destruct (reach_defeats (max_uint 64)) as (s & Hr & Hj & Hb);
      [ unfold max_uint; lia | lia | ].
    specialize (H (call 1) s Hr Hj).
    unfold exec in H; cbn [run] in H.
    rewrite fightMonster_Panic in H
      by (cbn [call msg_sender]; first [ exact Hj | lia ]).
    lia.
Qed.
